(** * Tournament tracker: tier assigner, epoch resolver, faction metrics,
      API client

    A shallow embedding of

    - [static/js/lib/tiers.js]  ([assignTiers], [tierLabel]),
    - [static/js/lib/api.js]    ([createApi] and its four methods),
    - [docs/02_data_model.md]   ([get_epoch_for_date], the derived metrics),

    and of the aggregation rules that the specification gives in words,
    followed by the properties stated about them. *)

From Stdlib Require Import QArith Qround ZArith Lia Lqa.
From stdpp Require Import gmap strings list fin_maps sorting pretty.

Local Open Scope nat_scope.

(** * Part I: the program *)

(** ** JavaScript: numbers, [Array.prototype.sort], property reads *)

Module Js.

(** A number: a finite one, held exactly, an infinity or NaN. *)
Inductive number :=
  | NaN
  | NegInfinity
  | Finite (q : Q)
  | Infinity.

(** [x - y].  The difference of two finite doubles is rounded and can
    overflow, but it is positive, zero or negative as the exact difference
    is, and a comparator's result is read for its sign only. *)
Definition sub (x y : number) : number :=
  match x, y with
  | NaN, _ => NaN
  | _, NaN => NaN
  | Finite a, Finite b => Finite (a - b)
  | Infinity, Infinity => NaN
  | NegInfinity, NegInfinity => NaN
  | Infinity, _ => Infinity
  | _, NegInfinity => Infinity
  | NegInfinity, _ => NegInfinity
  | _, Infinity => NegInfinity
  end.

(** [x < y], [x <= y] and [x == y]: every comparison with NaN is false. *)
Definition lt (x y : number) : Prop :=
  match x, y with
  | NaN, _ => False
  | _, NaN => False
  | NegInfinity, NegInfinity => False
  | NegInfinity, _ => True
  | Finite a, Finite b => (a < b)%Q
  | Finite _, Infinity => True
  | Finite _, NegInfinity => False
  | Infinity, _ => False
  end.


Definition eqv (x y : number) : Prop :=
  match x, y with
  | Finite a, Finite b => (a == b)%Q
  | Infinity, Infinity => True
  | NegInfinity, NegInfinity => True
  | _, _ => False
  end.

Definition finite (x : number) : Prop := ∃ q, x = Finite q.

Definition is_nan (v : number) : bool :=
  match v with NaN => true | _ => false end.

(** [v > 0], [v < 0] and [v == 0] as the sort reads the result of a
    comparator. *)
Definition is_positive (v : number) : bool :=
  match v with
  | Infinity => true
  | Finite q => negb (Qle_bool q 0)
  | _ => false
  end.

Definition is_negative (v : number) : bool :=
  match v with
  | NegInfinity => true
  | Finite q => negb (Qle_bool 0 q)
  | _ => false
  end.

Definition is_zero (v : number) : bool :=
  match v with
  | Finite q => Qeq_bool q 0
  | _ => false
  end.

(** The number of an array position. *)
Definition of_nat (n : nat) : number := Finite (inject_Z (Z.of_nat n)).

(** [array[i]] for a number [i]: an element when [i] is a whole number
    from 0 below the length, [undefined] otherwise (negative, fractional,
    infinite, NaN). *)
Definition array_get {A} (array : list A) (i : number) : option A :=
  match i with
  | Finite q =>
      if Qeq_bool q (inject_Z (Qfloor q)) && (0 <=? Qfloor q)%Z
      then array !! Z.to_nat (Qfloor q)
      else None
  | _ => None
  end.

(** The result on a comparator that puts its first argument first on a
    negative result, its second on a positive one, and keeps the order of
    the two on zero.  [sort_insert x l] puts [x], which stood before all of
    [l] in the array, in front of the first element that the comparator does
    not order strictly before it. *)
Section ArraySort.
Context {A : Type}.
Variable compareFn : A -> A -> number.

Fixpoint sort_insert (x : A) (l : list A) : list A :=
  match l with
  | [] => [x]
  | y :: l' =>
      if is_positive (compareFn x y)
      then y :: sort_insert x l'
      else x :: y :: l'
  end.

Definition array_sort (l : list A) : list A := foldr sort_insert [] l.

(** A consistent comparison function for the elements of [l], in the words
    of the language: it never returns NaN, every element is equal to
    itself, equality is symmetric and transitive, and so are "before" and
    "after". *)
Definition consistent (l : list A) : Prop :=
  Forall (λ a, Forall (λ b, is_nan (compareFn a b) = false) l) l ∧
  Forall (λ a, is_zero (compareFn a a) = true) l ∧
  Forall (λ a, Forall (λ b,
    is_zero (compareFn a b) = true → is_zero (compareFn b a) = true) l) l ∧
  Forall (λ a, Forall (λ b, Forall (λ c,
    (is_zero (compareFn a b) = true → is_zero (compareFn b c) = true →
     is_zero (compareFn a c) = true) ∧
    (is_negative (compareFn a b) = true → is_negative (compareFn b c) = true →
     is_negative (compareFn a c) = true) ∧
    (is_positive (compareFn a b) = true → is_positive (compareFn b c) = true →
     is_positive (compareFn a c) = true)) l) l) l.

#[global] Instance consistent_dec l : Decision (consistent l).
Proof. unfold consistent. apply _. Defined.
End ArraySort.

(** The engine's [Array.prototype.sort].  The language leaves the algorithm
    to the engine and promises two things: the result holds the elements of
    the array, and for a consistent comparator it is the stable sort (since
    ECMAScript 2019), which [array_sort] computes.  For an inconsistent
    comparator the order is the engine's own. *)
Record Engine := {
  sort : ∀ {A : Type}, (A → A → number) → list A → list A;
  sort_permutation : ∀ A (compareFn : A → A → number) (l : list A),
    sort compareFn l ≡ₚ l;
  sort_consistent : ∀ A (compareFn : A → A → number) (l : list A),
    consistent compareFn l → sort compareFn l = array_sort compareFn l
}.

(** An engine that sorts by insertion whatever the comparator; a result
    that is NaN is read as zero, as the language has it. *)
Definition insertion_engine : Engine.
Proof.
  refine {| sort := @array_sort |}.
  - intros A compareFn l. induction l as [|x l IH]; [done|].
    cbn [array_sort foldr]. fold (array_sort compareFn l).
    transitivity (x :: array_sort compareFn l); [|by rewrite IH].
    generalize (array_sort compareFn l). clear. intros s.
    induction s as [|y s IHs]; [done|]. cbn [sort_insert].
    destruct (is_positive (compareFn x y)); [|done].
    rewrite IHs. apply Permutation_swap.
  - done.
Defined.

(** An engine that gives up on an inconsistent comparator and hands the
    array back reversed: the language allows it. *)
Definition reversing_engine : Engine.
Proof.
  refine {| sort A compareFn l :=
              if decide (consistent compareFn l)
              then array_sort compareFn l else reverse l |}.
  - intros A compareFn l. case_decide.
    + apply (sort_permutation insertion_engine).
    + apply reverse_Permutation.
  - intros A compareFn l Hc. by rewrite decide_True.
Defined.

(** The names that every object inherits from [Object.prototype]; each
    holds a function or an object, which is truthy. *)
Definition Object_prototype : list string :=
  ["constructor"; "__defineGetter__"; "__defineSetter__"; "hasOwnProperty";
   "__lookupGetter__"; "__lookupSetter__"; "isPrototypeOf";
   "propertyIsEnumerable"; "toString"; "valueOf"; "__proto__";
   "toLocaleString"]%string.

Definition inherited (key : string) : bool :=
  bool_decide (key ∈ Object_prototype).

End Js.

(** ** [static/js/lib/tiers.js] *)

Module Tiers.

(** The faction objects handed to [assignTiers]: the function itself reads
    [count] only, the caller's [getValue] reads the metric. *)
Record faction := Faction {
  name : string;
  win_rate : Js.number;
  count : Z
}.

(** [{ idx: i, val: getValue(f), count: f.count }].  The value is read by
    the subtraction of the comparator only, as a number: any number, NaN
    (0/0, or a metric that is missing) and the infinities among them. *)
Record item := Item {
  idx : nat;
  val : Js.number;
  icount : Z
}.

Definition TIER_LABELS : list string := ["S"; "A"; "B"; "C"; "D"]%string.
Definition TIER_CUTS : list Q := [15 # 100; 40 # 100; 70 # 100; 90 # 100]%Q.

(** [TIER_CUTS[k]] *)
Definition cut (k : nat) : Q := default 0%Q (TIER_CUTS !! k).

(** [n > 1 ? r / (n - 1) : 0].  The quotient of two array positions is held
    exactly; for arrays (fewer than 2^32 elements) the rounded double
    compares with each cut the way the exact quotient does: a quotient that
    differs from a cut differs from it by at least [1 / (20 * (n - 1))], far
    more than the spacing of doubles below 1. *)
Definition percentile (r n : nat) : Q :=
  if decide (1 < n)
  then (inject_Z (Z.of_nat r) / inject_Z (Z.of_nat (n - 1)))%Q
  else 0%Q.

(** The [if … else if …] cascade of the ranking loop. *)
Definition tier_of_pct (pct : Q) : nat :=
  if Qle_bool pct (cut 0) then 0
  else if Qle_bool pct (cut 1) then 1
  else if Qle_bool pct (cut 2) then 2
  else if Qle_bool pct (cut 3) then 3
  else 4.

(** [factions.map(function(f, i) { … })] *)
Definition make_items (getValue : faction -> Js.number)
    (factions : list faction) : list item :=
  imap (fun i f => {| idx := i; val := getValue f; icount := count f |})
       factions.

(** [it.count >= 3] *)
Definition qualifies (it : item) : Prop := (3 <= icount it)%Z.

#[global] Instance qualifies_dec it : Decision (qualifies it).
Proof. unfold qualifies. apply _. Defined.

(** [function(a, b) { return b.val - a.val; }] *)
Definition byValueDesc (a b : item) : Js.number := Js.sub (val b) (val a).

(** [items.filter(…)] followed by [qualifying.sort(…)]. *)
Definition ranking (engine : Js.Engine) (items : list item) : list item :=
  Js.sort engine byValueDesc (filter qualifies items).

(** The body of [for (var r = 0; r < n; r++)]:
    [tiers[qualifying[r].idx] = tier]. *)
Definition rank_step (qualifying : list item) (tiers : gmap nat nat)
                     (r : nat) : gmap nat nat :=
  match qualifying !! r with
  | Some it =>
      <[ idx it := tier_of_pct (percentile r (length qualifying)) ]> tiers
  | None => tiers
  end.

(** The object [tiers] after the first [k] rounds of the ranking loop. *)
Definition rank_upto (qualifying : list item) (k : nat) : gmap nat nat :=
  foldl (rank_step qualifying) ∅ (seq 0 k).

Definition rank_loop (qualifying : list item) : gmap nat nat :=
  rank_upto qualifying (length qualifying).

(** The body of [for (var j = 0; j < items.length; j++)]:
    [if (tiers[j] === undefined) tiers[j] = 4]. *)
Definition fill_step (tiers : gmap nat nat) (j : nat) : gmap nat nat :=
  match tiers !! j with
  | None => <[ j := 4 ]> tiers
  | Some _ => tiers
  end.

Definition fill_loop (len : nat) (tiers : gmap nat nat) : gmap nat nat :=
  foldl fill_step tiers (seq 0 len).

Definition assignTiers (engine : Js.Engine) (factions : list faction)
    (getValue : faction -> Js.number) : gmap nat nat :=
  let items := make_items getValue factions in
  let qualifying := ranking engine items in
  fill_loop (length items) (rank_loop qualifying).

(** [TIER_LABELS[tierIdx] || 'D'] *)
Definition tierLabel (tierIdx : Js.number) : string :=
  default "D"%string (Js.array_get TIER_LABELS tierIdx).

(** [a] is ranked before [b]: a larger value, or the same value and an
    earlier place in the input. *)
Definition ranked_before (a b : item) : Prop :=
  Js.lt (val b) (val a) ∨ (Js.eqv (val b) (val a) ∧ idx a < idx b).

(** The value of an item is finite. *)
Definition finite_val (it : item) : Prop := Js.finite (val it).

(** Every faction that qualifies has a finite value. *)
Definition finite_qualifying (getValue : faction → Js.number)
    (factions : list faction) : Prop :=
  Forall (λ f, (3 ≤ count f)%Z → Js.finite (getValue f)) factions.

End Tiers.

(** Proves [finite_qualifying] on a list that is written out. *)
Ltac finite_values :=
  repeat (constructor; [simpl; intros ?; first [lia | by eexists]|]);
  constructor.

(** ** [docs/02_data_model.md], "Epoch Mapping Rules" *)

Module Epochs.

(** A [NaiveDate], held as the day number [YYYYMMDD]: these numbers are in
    the order of the calendar. *)
Definition NaiveDate := Z.
Definition ymd (y m d : Z) : NaiveDate := (y * 10000 + m * 100 + d)%Z.

Inductive EventType := balance_update | edition_release.

Record SignificantEvent := {
  id : string;
  event_type : EventType;
  date : NaiveDate;
  title : string
}.

(** [Iterator::max_by_key]: the first element is the candidate, and a later
    element replaces it unless the candidate's key is strictly greater; of
    several greatest elements the last is returned. *)
Definition max_by_key {A} (key : A → Z) (l : list A) : option A :=
  match l with
  | [] => None
  | x :: l' =>
      Some (foldl (λ best y, if (key y <? key best)%Z then best else y) x l')
  end.

(** [events.iter().filter(|e| e.date <= date).max_by_key(|e| e.date)] *)
Definition governing_event (d : NaiveDate) (events : list SignificantEvent)
  : option SignificantEvent :=
  max_by_key date (filter (λ e, (date e ≤ d)%Z) events).

Section Resolver.
(** The type of epoch identifiers, the identifier that an event gives to the
    epoch it starts, and the identifier of the synthetic epoch are declared
    outside the document. *)
Context {EpochId : Type}.
Variable epoch_id_from_event : SignificantEvent → EpochId.
Variable PRE_TRACKING_EPOCH_ID : EpochId.

(** [….map(|e| epoch_id_from_event(e)).unwrap_or(PRE_TRACKING_EPOCH_ID)] *)
Definition get_epoch_for_date (d : NaiveDate)
    (events : list SignificantEvent) : EpochId :=
  default PRE_TRACKING_EPOCH_ID
          (epoch_id_from_event <$> governing_event d events).
End Resolver.

End Epochs.

(** ** Derived metrics *)

Module Metrics.

(** The quotient of two counters, as a fraction. *)
Definition ratio (a b : N) : Q :=
  (inject_Z (Z.of_N a) / inject_Z (Z.of_N b))%Q.

(** Modelled from the spec: the function that computes [meta_share] is not in
    the repository.  [meta_share = player_count /
    total_players_across_all_factions_in_range]. *)
Definition meta_share (player_count total_players : N) : Q :=
  ratio player_count total_players.

(** Modelled from the spec: the function that computes [over_representation]
    is not in the repository; the data model gives its formula only.
    [over_representation = (top4 / total_top4_across_all_factions) /
    meta_share]; null if [meta_share == 0] or [total_top4 == 0]. *)
Definition over_representation (top4 total_top4 : N) (share : Q)
  : option Q :=
  if Qeq_bool share 0 || (total_top4 =? 0)%N
  then None
  else Some (ratio top4 total_top4 / share)%Q.

End Metrics.

(** ** The faction aggregator *)

Module Aggregator.

(** The [record] of a placement in the data model. *)
Record GameRecord := { wins : N; losses : N; draws : N }.

Inductive Confidence := high | medium | low.

Record PlacementRecord := {
  event_id : string;
  epoch_id : string;
  rank : Z;
  faction : string;
  record : option GameRecord;
  confidence : Confidence;
  needs_review : bool
}.

(** Modelled from the spec: the counters of a faction are not declared in the
    repository.  [event_ids] holds the distinct events, whose number is
    [event_appearances]. *)
Record FactionCounters := {
  player_count : N;
  games_played : N;
  total_wins : N;
  total_losses : N;
  total_draws : N;
  first : N;
  top4 : N;
  top10 : N;
  top_half : N;
  four_zero_count : N;
  five_zero_count : N;
  event_ids : gset string
}.

Definition no_counters : FactionCounters :=
  {| player_count := 0; games_played := 0; total_wins := 0;
     total_losses := 0; total_draws := 0; first := 0; top4 := 0;
     top10 := 0; top_half := 0; four_zero_count := 0;
     five_zero_count := 0; event_ids := ∅ |}.

Definition bump (b : bool) (n : N) : N := if b then (n + 1)%N else n.

(** Modelled from the spec: the aggregator's test for a 4-0 or 5-0 start is
    not in the repository.  A start is detected only when
    [record.losses == 0 and record.draws == 0 and record.wins] is exactly the
    given number; a placement without a record has none. *)
Definition perfect_start (n : N) (r : option GameRecord) : bool :=
  match r with
  | Some g => (losses g =? 0)%N && (draws g =? 0)%N && (wins g =? n)%N
  | None => false
  end.

(** Modelled from the spec: the aggregator's update for one placement is not
    in the repository.  It increments [player_count]; adds the record, when
    there is one, to the wins, losses and draws and their sum to
    [games_played]; updates the placement buckets by the thresholds on
    [rank], the top half ([rank <= players / 2], written without the
    division) against the owning event's player count; and detects the 4-0
    and 5-0 starts. *)
Definition add_placement (event_players : N) (c : FactionCounters)
    (p : PlacementRecord) : FactionCounters :=
  let w := from_option wins 0%N (record p) in
  let l := from_option losses 0%N (record p) in
  let d := from_option draws 0%N (record p) in
  {| player_count := player_count c + 1;
     games_played := games_played c + (w + l + d);
     total_wins := total_wins c + w;
     total_losses := total_losses c + l;
     total_draws := total_draws c + d;
     first := bump (rank p =? 1)%Z (first c);
     top4 := bump (rank p <=? 4)%Z (top4 c);
     top10 := bump (rank p <=? 10)%Z (top10 c);
     top_half := bump (2 * rank p <=? Z.of_N event_players)%Z (top_half c);
     four_zero_count := bump (perfect_start 4 (record p)) (four_zero_count c);
     five_zero_count := bump (perfect_start 5 (record p)) (five_zero_count c);
     event_ids := {[ event_id p ]} ∪ event_ids c |}.

(** The record of a placement is exactly [n] wins with no loss and no draw:
    the condition in the words of the specification. *)
Definition exact_start (n : N) (p : PlacementRecord) : Prop :=
  ∃ g, record p = Some g ∧ losses g = 0%N ∧ draws g = 0%N ∧ wins g = n.

#[global] Instance exact_start_dec n p : Decision (exact_start n p).
Proof.
  unfold exact_start. destruct (record p) as [g|].
  - destruct (decide (losses g = 0%N ∧ draws g = 0%N ∧ wins g = n)) as [H|H].
    + left. by exists g.
    + right. intros (g' & [= <-] & ?). by apply H.
  - right. by intros (g & ? & _).
Defined.

Section Aggregate.
(** What the storage layer knows of an event: its date and its number of
    players. *)
Variable event_date : string → Z.
Variable event_players : string → N.
(** The documented switch: whether records flagged for review count. *)
Variable include_needs_review : bool.

Definition in_range (range : option Z * option Z) (d : Z) : bool :=
  from_option (λ lo, lo <=? d)%Z true range.1
  && from_option (λ hi, d <=? hi)%Z true range.2.

(** Modelled from the spec: the check of a record is not in the repository.
    A placement with a non-positive rank or an empty faction name is an
    invalid record. *)
Definition valid (p : PlacementRecord) : bool :=
  (0 <? rank p)%Z && negb (String.eqb (faction p) EmptyString).

(** Modelled from the spec: the filter of the aggregator is not in the
    repository.  Only records whose [epoch_id] matches and whose owning
    event's date falls within the inclusive range are included. *)
Definition included (epoch : string) (range : option Z * option Z)
    (p : PlacementRecord) : bool :=
  String.eqb (epoch_id p) epoch
  && in_range range (event_date (event_id p))
  && (include_needs_review || negb (needs_review p)).

(** Modelled from the spec: the fold of the aggregator is not in the
    repository.  One step leaves out a record that is not included, sets an
    invalid record aside, and otherwise updates the counters of the record's
    faction. *)
Definition aggregate_step (epoch : string) (range : option Z * option Z)
    (acc : gmap string FactionCounters * list PlacementRecord)
    (p : PlacementRecord)
  : gmap string FactionCounters * list PlacementRecord :=
  if negb (included epoch range p) then acc
  else if negb (valid p) then (acc.1, acc.2 ++ [p])
  else
    let c := default no_counters (acc.1 !! faction p) in
    (<[ faction p := add_placement (event_players (event_id p)) c p ]> acc.1,
     acc.2).

(** Modelled from the spec: [aggregate] is not in the repository.  It maps
    each faction to its counters and returns the skipped records beside. *)
Definition aggregate (records : list PlacementRecord) (epoch : string)
    (range : option Z * option Z)
  : gmap string FactionCounters * list PlacementRecord :=
  foldl (aggregate_step epoch range) (∅, []) records.

(** The placements that count towards faction [f]. *)
Definition counted (epoch : string) (range : option Z * option Z)
    (f : string) (p : PlacementRecord) : Prop :=
  included epoch range p = true ∧ valid p = true ∧ faction p = f.

#[global] Instance counted_dec epoch range f p :
  Decision (counted epoch range f p).
Proof. unfold counted. apply _. Defined.
End Aggregate.

(** The output fields [four_zero_starts] and [five_zero_starts] of a
    faction. *)
Definition four_zero_starts (m : gmap string FactionCounters) (f : string) : N :=
  four_zero_count (default no_counters (m !! f)).
Definition five_zero_starts (m : gmap string FactionCounters) (f : string) : N :=
  five_zero_count (default no_counters (m !! f)).

End Aggregator.

(** ** [static/js/lib/api.js] *)

Module Api.

Record JsError := Error { message : string }.

(** How a promise settles. *)
Inductive Settled (A : Type) : Type :=
  | Fulfilled (a : A)
  | Rejected (e : JsError).
Arguments Fulfilled {A} a.
Arguments Rejected {A} e.

(** [await p], then the rest of the [async] body: a rejection of [p] rejects
    the whole call. *)
#[global] Instance Settled_bind : MBind Settled := λ A B k p,
  match p with
  | Fulfilled a => k a
  | Rejected e => Rejected e
  end.

(** The response a fetch resolves to: [json] is how the promise returned by
    [res.json()] settles. *)
Record Response (Json : Type) := {
  ok : bool;
  status : N;
  json : Settled Json
}.
Arguments ok {Json} r.
Arguments status {Json} r.
Arguments json {Json} r.

(** [v || d] on a number that may be missing: [undefined] and [0] give
    [d]. *)
Definition number_or (v : option N) (d : N) : N :=
  match v with
  | Some n => if (n =? 0)%N then d else n
  | None => d
  end.

(** The truth value of a string that may be missing. *)
Definition truthy (s : option string) : bool :=
  match s with
  | Some s => negb (String.eqb s EmptyString)
  | None => false
  end.

Definition text (s : option string) : string := default EmptyString s.

(** [epoch && epoch !== 'current'] *)
Definition names_epoch (epoch : option string) : bool :=
  truthy epoch && negb (String.eqb (text epoch) "current").

(** [parts.join(sep)] *)
Fixpoint join (sep : string) (parts : list string) : string :=
  match parts with
  | [] => EmptyString
  | [p] => p
  | p :: rest => p +:+ sep +:+ join sep rest
  end.

Section Client.
Context {Json : Type}.
Variable encodeURIComponent : string → string.
(** [globalThis.fetch], when there is one. *)
Variable global_fetch : option (string → Settled (Response Json)).

Record ApiClient := {
  getEvents : option N → option N → option string → option string →
              option string → bool → Settled Json;
  getEvent : string → option string → Settled Json;
  getFactionStats : option string → option string → option string →
                    Settled Json;
  getEpochs : Settled Json
}.

Definition createApi (fetchFn : option (string → Settled (Response Json)))
  : ApiClient :=
  let _fetch (url : string) : Settled (Response Json) :=
    match (if fetchFn is Some f then Some f else global_fetch) with
    | Some f => f url
    | None => Rejected (Error "_fetch is not a function")
    end in
  {| getEvents page pageSize epoch from to hasResults :=
       let params := "page=" +:+ pretty (number_or page 1)
                     +:+ "&page_size=" +:+ pretty (number_or pageSize 20) in
       let params := if names_epoch epoch
                     then params +:+ "&epoch=" +:+ encodeURIComponent (text epoch)
                     else params in
       let params := if truthy from then params +:+ "&from=" +:+ text from
                     else params in
       let params := if truthy to then params +:+ "&to=" +:+ text to
                     else params in
       let params := if hasResults then params +:+ "&has_results=true"
                     else params in
       res ← _fetch ("/api/events?" +:+ params);
       if negb (ok res)
       then Rejected (Error ("Events API error: " +:+ pretty (status res)))
       else json res;
     getEvent id epoch :=
       let params := if names_epoch epoch
                     then "?epoch=" +:+ encodeURIComponent (text epoch)
                     else EmptyString in
       res ← _fetch ("/api/events/" +:+ id +:+ params);
       if negb (ok res)
       then Rejected (Error ("Event API error: " +:+ pretty (status res)))
       else json res;
     getFactionStats epoch from to :=
       let parts := [] in
       let parts := if names_epoch epoch
                    then parts ++ ["epoch=" +:+ encodeURIComponent (text epoch)]
                    else parts in
       let parts := if truthy from then parts ++ ["from=" +:+ text from]
                    else parts in
       let parts := if truthy to then parts ++ ["to=" +:+ text to]
                    else parts in
       let params := if (0 <? length parts)%nat then "?" +:+ join "&" parts
                     else EmptyString in
       res ← _fetch ("/api/meta/factions" +:+ params);
       if negb (ok res)
       then Rejected (Error ("Meta API error: " +:+ pretty (status res)))
       else json res;
     getEpochs :=
       res ← _fetch "/api/epochs";
       if negb (ok res)
       then Rejected (Error ("Epochs API error: " +:+ pretty (status res)))
       else json res |}.
End Client.

(** [msg] contains [needle]. *)
Definition mentions (needle msg : string) : Prop :=
  ∃ before after, msg = before +:+ needle +:+ after.

(** The outcome of a method as the fetched response decides it: an error
    made of the method's label and the status when [ok] is false, and
    whatever [res.json()] settles to when [ok] is true. *)
Definition settles_by_response {Json} (label : string) (res : Response Json)
    (out : Settled Json) : Prop :=
  out = (if ok res then json res
         else Rejected (Error (label +:+ pretty (status res)))) ∧
  mentions (pretty (status res)) (label +:+ pretty (status res)).

(** The outcome of a method when only two outcomes are possible: an error
    that contains the status exactly when [ok] is false, and a returned body
    otherwise. *)
Definition throws_or_returns {Json} (res : Response Json)
    (out : Settled Json) : Prop :=
  ((∃ msg, out = Rejected (Error msg) ∧ mentions (pretty (status res)) msg)
   ↔ ok res = false) ∧
  (ok res = true → ∃ body, out = Fulfilled body).

End Api.

(** ** [static/js/lib/tiers.js]: the colour of a tier *)

Module Palette.

Definition TIER_COLORS : list string :=
  ["#e05555"; "#e0884a"; "#c9a84c"; "#6a8da6"; "#5a5c78"]%string.

(** [v || d] on a string that may be undefined: the empty string is falsy. *)
Definition or_else (v : option string) (d : string) : string :=
  match v with
  | Some s => if String.eqb s EmptyString then d else s
  | None => d
  end.

(** [TIER_COLORS[tierIdx] || TIER_COLORS[4]] *)
Definition tierColor (tierIdx : Js.number) : string :=
  or_else (Js.array_get TIER_COLORS tierIdx)
          (default EmptyString (TIER_COLORS !! 4)).

End Palette.

(** ** [static/js/lib/tiers.js], second part: the faction tables

    The object literals, as their entries in the order they are written;
    [table[name]] is the lookup in the map of these entries. *)

Module Factions.

Record IconInfo := { abbr : string; img : string }.

Definition FACTION_ICONS : list (string * IconInfo) :=
  [("Space Marines", {| abbr := "SM";
      img := "https://wh40k.lexicanum.com/mediawiki/images/thumb/d/d5/Adeptus_Astartes.jpg/220px-Adeptus_Astartes.jpg" |});
   ("Blood Angels", {| abbr := "BA";
      img := "https://wh40k.lexicanum.com/mediawiki/images/thumb/e/e5/Bloodangelsymbol.png/200px-Bloodangelsymbol.png" |});
   ("Dark Angels", {| abbr := "DA";
      img := "https://wh40k.lexicanum.com/mediawiki/images/thumb/9/95/Darkangelsymbol.png/200px-Darkangelsymbol.png" |});
   ("Space Wolves", {| abbr := "SW";
      img := "https://wh40k.lexicanum.com/mediawiki/images/thumb/4/4f/Spacewolvesymbol.png/200px-Spacewolvesymbol.png" |});
   ("Black Templars", {| abbr := "BT";
      img := "https://wh40k.lexicanum.com/mediawiki/images/5/58/BlackTemplarssymbol.png" |});
   ("Grey Knights", {| abbr := "GK";
      img := "https://wh40k.lexicanum.com/mediawiki/images/1/12/Grey_Knights_symbol.png" |});
   ("Ultramarines", {| abbr := "UM";
      img := "https://wh40k.lexicanum.com/mediawiki/images/thumb/6/67/Ultramarinessymbol.png/200px-Ultramarinessymbol.png" |});
   ("Deathwatch", {| abbr := "DW";
      img := "https://wh40k.lexicanum.com/mediawiki/images/0/06/Deathwatchsymbol2.png" |});
   ("Iron Hands", {| abbr := "IH";
      img := "https://wh40k.lexicanum.com/mediawiki/images/thumb/d/d5/Adeptus_Astartes.jpg/220px-Adeptus_Astartes.jpg" |});
   ("Raven Guard", {| abbr := "RG";
      img := "https://wh40k.lexicanum.com/mediawiki/images/thumb/d/d5/Adeptus_Astartes.jpg/220px-Adeptus_Astartes.jpg" |});
   ("Salamanders", {| abbr := "SA";
      img := "https://wh40k.lexicanum.com/mediawiki/images/thumb/d/d5/Adeptus_Astartes.jpg/220px-Adeptus_Astartes.jpg" |});
   ("Imperial Fists", {| abbr := "IF";
      img := "https://wh40k.lexicanum.com/mediawiki/images/thumb/d/d5/Adeptus_Astartes.jpg/220px-Adeptus_Astartes.jpg" |});
   ("White Scars", {| abbr := "WS";
      img := "https://wh40k.lexicanum.com/mediawiki/images/thumb/d/d5/Adeptus_Astartes.jpg/220px-Adeptus_Astartes.jpg" |});
   ("Crimson Fists", {| abbr := "CF";
      img := "https://wh40k.lexicanum.com/mediawiki/images/thumb/d/d5/Adeptus_Astartes.jpg/220px-Adeptus_Astartes.jpg" |});
   ("Flesh Tearers", {| abbr := "FT";
      img := "https://wh40k.lexicanum.com/mediawiki/images/thumb/e/e5/Bloodangelsymbol.png/200px-Bloodangelsymbol.png" |});
   ("Adepta Sororitas", {| abbr := "AS";
      img := "https://wh40k.lexicanum.com/mediawiki/images/thumb/e/e2/Sisters_symbol.png/193px-Sisters_symbol.png" |});
   ("Adeptus Custodes", {| abbr := "AC";
      img := "https://wh40k.lexicanum.com/mediawiki/images/e/e3/CustodesSymbolClear.png" |});
   ("Adeptus Mechanicus", {| abbr := "AM";
      img := "https://wh40k.lexicanum.com/mediawiki/images/thumb/d/db/Machina_Opus.png/220px-Machina_Opus.png" |});
   ("Astra Militarum", {| abbr := "IG";
      img := "https://wh40k.lexicanum.com/mediawiki/images/thumb/3/3d/Astra_Militarum_Symbol.png/220px-Astra_Militarum_Symbol.png" |});
   ("Imperial Knights", {| abbr := "IK";
      img := "https://wh40k.lexicanum.com/mediawiki/images/thumb/4/46/Imperial-Knights-Symbol.jpg/220px-Imperial-Knights-Symbol.jpg" |});
   ("Agents of the Imperium", {| abbr := "AI";
      img := "https://wh40k.lexicanum.com/mediawiki/images/thumb/a/a4/Inquisiton.png/220px-Inquisiton.png" |});
   ("Chaos Space Marines", {| abbr := "CSM";
      img := "https://wh40k.lexicanum.com/mediawiki/images/8/8f/Chaos.png" |});
   ("Death Guard", {| abbr := "DG";
      img := "https://wh40k.lexicanum.com/mediawiki/images/thumb/9/97/Deathguardsymbol.png/200px-Deathguardsymbol.png" |});
   ("Thousand Sons", {| abbr := "TS";
      img := "https://wh40k.lexicanum.com/mediawiki/images/thumb/8/86/TSicon.png/200px-TSicon.png" |});
   ("World Eaters", {| abbr := "WE";
      img := "https://wh40k.lexicanum.com/mediawiki/images/thumb/f/fc/WorldEaters.png/200px-WorldEaters.png" |});
   ("Emperor's Children", {| abbr := "EC";
      img := "https://wh40k.lexicanum.com/mediawiki/images/e/e4/ECSymbolChaos.jpg" |});
   ("Chaos Daemons", {| abbr := "CD";
      img := "https://wh40k.lexicanum.com/mediawiki/images/8/8f/Chaos.png" |});
   ("Chaos Knights", {| abbr := "CK";
      img := "https://wh40k.lexicanum.com/mediawiki/images/8/8f/Chaos.png" |});
   ("Aeldari", {| abbr := "AE";
      img := "https://wh40k.lexicanum.com/mediawiki/images/0/0d/AsuryaniRune.jpg" |});
   ("Drukhari", {| abbr := "DR";
      img := "https://wh40k.lexicanum.com/mediawiki/images/d/d7/DarkEldar.png" |});
   ("Tyranids", {| abbr := "TY";
      img := "https://wh40k.lexicanum.com/mediawiki/images/e/e1/Tyranid_logo.png" |});
   ("Genestealer Cults", {| abbr := "GSC";
      img := "https://wh40k.lexicanum.com/mediawiki/images/0/04/Tyranids.png" |});
   ("Necrons", {| abbr := "NE";
      img := "https://wh40k.lexicanum.com/mediawiki/images/f/f5/NecronPortal.jpg" |});
   ("Orks", {| abbr := "OR";
      img := "https://wh40k.lexicanum.com/mediawiki/images/6/6e/Orks.png" |});
   ("T'au Empire", {| abbr := "TAU";
      img := "https://wh40k.lexicanum.com/mediawiki/images/thumb/f/f3/Tau_Sept_Symbol.png/220px-Tau_Sept_Symbol.png" |});
   ("Leagues of Votann", {| abbr := "LV";
      img := "https://wh40k.lexicanum.com/mediawiki/images/d/d9/LOVSymbolTransparent.png" |})]%string.
Definition FACTION_ALLEGIANCE_MAP : list (string * string) :=
  [("Space Marines", "Imperium");
   ("Blood Angels", "Imperium");
   ("Dark Angels", "Imperium");
   ("Space Wolves", "Imperium");
   ("Black Templars", "Imperium");
   ("Grey Knights", "Imperium");
   ("Ultramarines", "Imperium");
   ("Deathwatch", "Imperium");
   ("Iron Hands", "Imperium");
   ("Raven Guard", "Imperium");
   ("Salamanders", "Imperium");
   ("Imperial Fists", "Imperium");
   ("White Scars", "Imperium");
   ("Crimson Fists", "Imperium");
   ("Flesh Tearers", "Imperium");
   ("Adepta Sororitas", "Imperium");
   ("Adeptus Custodes", "Imperium");
   ("Adeptus Mechanicus", "Imperium");
   ("Astra Militarum", "Imperium");
   ("Imperial Knights", "Imperium");
   ("Agents of the Imperium", "Imperium");
   ("Chaos Space Marines", "Chaos");
   ("Death Guard", "Chaos");
   ("Thousand Sons", "Chaos");
   ("World Eaters", "Chaos");
   ("Emperor's Children", "Chaos");
   ("Chaos Daemons", "Chaos");
   ("Chaos Knights", "Chaos");
   ("Aeldari", "Xenos");
   ("Drukhari", "Xenos");
   ("Tyranids", "Xenos");
   ("Genestealer Cults", "Xenos");
   ("Necrons", "Xenos");
   ("Orks", "Xenos");
   ("T'au Empire", "Xenos");
   ("Leagues of Votann", "Xenos")]%string.

Definition FACTION_ICON_COLORS : list (string * string) :=
  [("Imperium", "#4a6fa5"); ("Chaos", "#c75454"); ("Xenos", "#4a9a6e");
   ("Unknown", "#7a7d8a")]%string.

(** [table[name]] *)
Definition property {V} (table : list (string * V)) (name : string) : option V :=
  (list_to_map table : gmap string V) !! name.

End Factions.

(** ** [static/js/api.js]: the client on [window.Api] *)

Module LegacyApi.
Import Api.

Section Client.
Context {Json : Type}.
(** The global [fetch]. *)
Variable fetch : string → Settled (Response Json).

(** [async getEvents(page = 1, pageSize = 20)]: a default parameter stands in
    for [undefined] only. *)
Definition getEvents (page pageSize : option N) : Settled Json :=
  res ← fetch ("/api/events?page=" +:+ pretty (default 1%N page)
               +:+ "&page_size=" +:+ pretty (default 20%N pageSize));
  if negb (ok res)
  then Rejected (Error ("Events API error: " +:+ pretty (status res)))
  else json res.

Definition getEvent (id : string) : Settled Json :=
  res ← fetch ("/api/events/" +:+ id);
  if negb (ok res)
  then Rejected (Error ("Event API error: " +:+ pretty (status res)))
  else json res.

Definition getFactionStats : Settled Json :=
  res ← fetch "/api/meta/factions";
  if negb (ok res)
  then Rejected (Error ("Meta API error: " +:+ pretty (status res)))
  else json res.

Definition getEpochs : Settled Json :=
  res ← fetch "/api/epochs";
  if negb (ok res)
  then Rejected (Error ("Epochs API error: " +:+ pretty (status res)))
  else json res.
End Client.

End LegacyApi.

(** ** [static/js/chart.js]: [FactionChart] *)

Module Chart.

(** The fields of a faction that the chart reads. *)
Record FactionRow := {
  faction : string;
  tier : string;
  meta_share : Q
}.

(** The entries of the object [TIER_COLORS] of this file. *)
Definition TIER_COLORS : list (string * string) :=
  [("S", "#ff4444"); ("A", "#ff8844"); ("B", "#d4af37"); ("C", "#44aa88");
   ("D", "#6688aa")]%string.

(** What a bar is painted with: a colour string, or the value that every
    object inherits under [key], which is no colour. *)
Inductive Paint :=
  | Colour (c : string)
  | Inherited (key : string).

(** [TIER_COLORS[f.tier] || '#6688aa']: the read finds the entry of the
    object, or else what [Object.prototype] holds under that name, which is
    truthy, or else nothing. *)
Definition barColor (f : FactionRow) : Paint :=
  match Factions.property TIER_COLORS (tier f) with
  | Some c => Colour (Palette.or_else (Some c) "#6688aa")
  | None =>
      if Js.inherited (tier f) then Inherited (tier f)
      else Colour "#6688aa"
  end.

(** The [data] handed to [new Chart]. *)
Record ChartData := {
  labels : list string;
  data : list Q;
  backgroundColor : list Paint
}.

(** The effect of [FactionChart], with the canvas mounted: no chart for
    missing or empty [factions], and otherwise one bar for each of
    [factions.slice(0, 15)]. *)
Definition chartData (factions : option (list FactionRow)) : option ChartData :=
  match factions with
  | None => None
  | Some l =>
      if (length l =? 0)%nat then None
      else
        let top := take 15 l in
        Some {| labels := faction <$> top;
                data := meta_share <$> top;
                backgroundColor := barColor <$> top |}
  end.

(** [Math.max(300, (factions ? Math.min(factions.length, 15) : 10) * 30 + 40)] *)
Definition height (factions : option (list FactionRow)) : Z :=
  Z.max 300
    ((match factions with
      | Some l => Z.min (Z.of_nat (length l)) 15
      | None => 10
      end) * 30 + 40).

End Chart.

(** ** [static/js/events.js] *)

Module Events.

(** [pagination] of the events response. *)
Record Pagination := {
  page : Z;
  total_pages : Z;
  has_prev : bool;
  has_next : bool
}.

(** What [EventList] renders: the two placeholders, or the cards with the
    pager when [pagination && pagination.total_pages > 1]. *)
Inductive EventListView (Event : Type) :=
  | LoadingEvents
  | NoEventsFound
  | EventCards (events : list Event) (pager : option Pagination).
Arguments LoadingEvents {Event}.
Arguments NoEventsFound {Event}.
Arguments EventCards {Event} events pager.

Definition EventList {Event} (events : option (list Event))
    (pagination : option Pagination) : EventListView Event :=
  match events with
  | None => LoadingEvents
  | Some l =>
      if (length l =? 0)%nat then NoEventsFound
      else EventCards l
             (match pagination with
              | Some p => if (1 <? total_pages p)%Z then Some p else None
              | None => None
              end)
  end.



(** The record cell of a placement:
    [p.record ? `${p.record.wins}-${p.record.losses}-${p.record.draws}` : '—'] *)
Definition recordCell (r : option Aggregator.GameRecord) : string :=
  match r with
  | Some g => pretty (Aggregator.wins g) +:+ "-" +:+ pretty (Aggregator.losses g)
              +:+ "-" +:+ pretty (Aggregator.draws g)
  | None => "—"
  end.

(** A string of decimal digits. *)
Fixpoint digits (s : string) : Prop :=
  match s with
  | EmptyString => True
  | String c s' => (48 ≤ Ascii.nat_of_ascii c ≤ 57) ∧ digits s'
  end.

End Events.

(** ** [static/js/app.js]: the state of [App] *)

Module App.

Section App.
Context {FactionRow EpochRow EventRow : Type}.

(** The [useState] cells. *)
Record State := {
  factions : option (list FactionRow);
  epochs : list EpochRow;
  activeEpoch : string;
  events : option (list EventRow);
  pagination : option Events.Pagination;
  page : Z;
  selectedEvent : option string;
  loading : bool
}.

Definition initial : State :=
  {| factions := None; epochs := []; activeEpoch := "current";
     events := None; pagination := None; page := 1;
     selectedEvent := None; loading := true |}.

Definition handleSelectEvent (id : string) (s : State) : State :=
  {| factions := factions s; epochs := epochs s;
     activeEpoch := activeEpoch s; events := events s;
     pagination := pagination s; page := page s;
     selectedEvent := Some id; loading := loading s |}.

Definition handleBack (s : State) : State :=
  {| factions := factions s; epochs := epochs s;
     activeEpoch := activeEpoch s; events := events s;
     pagination := pagination s; page := page s;
     selectedEvent := None; loading := loading s |}.

(** What [App] renders in its main column. *)
Inductive MainView :=
  | EventDetailOf (eventId : string)
  | EventListOf (view : Events.EventListView EventRow).

Inductive Screen :=
  | LoadingDashboard
  | Dashboard (epochs : list EpochRow)
              (factions : option (list FactionRow)) (main : MainView).

(** [if (loading) …] and [selectedEvent ? <EventDetail …/> : <EventList …/>];
    an empty identifier is falsy. *)
Definition render (s : State) : Screen :=
  if loading s then LoadingDashboard
  else Dashboard (epochs s) (factions s)
         (if Api.truthy (selectedEvent s)
          then EventDetailOf (Api.text (selectedEvent s))
          else EventListOf (Events.EventList (events s) (pagination s))).
End App.

End App.

(** * Part II: the properties *)

(** ** JavaScript numbers *)

Lemma is_positive_lt v : Js.is_positive v = true ↔ Js.lt (Js.Finite 0) v.
Proof.
  destruct v as [| |q|]; simpl; try done.
  destruct (Qle_bool q 0) eqn:Hq; simpl.
  - apply Qle_bool_iff in Hq. split; [done|]. intros ?. lra.
  - split; [|done]. intros _. apply Qnot_le_lt. intros Hle.
    apply Qle_bool_iff in Hle. congruence.
Qed.

Lemma is_negative_lt v : Js.is_negative v = true ↔ Js.lt v (Js.Finite 0).
Proof.
  destruct v as [| |q|]; simpl; try done.
  destruct (Qle_bool 0 q) eqn:Hq; simpl.
  - apply Qle_bool_iff in Hq. split; [done|]. intros ?. lra.
  - split; [|done]. intros _. apply Qnot_le_lt. intros Hle.
    apply Qle_bool_iff in Hle. congruence.
Qed.

Lemma is_zero_eqv v : Js.is_zero v = true ↔ Js.eqv v (Js.Finite 0).
Proof. destruct v as [| |q|]; simpl; try done. apply Qeq_bool_iff. Qed.

(** A number reads an array at [k] exactly when it equals [k]. *)
Lemma array_get_of {A} (array : list A) (i : Js.number) (k : nat) :
  Js.eqv i (Js.of_nat k) → Js.array_get array i = array !! k.
Proof.
  destruct i as [| |q|]; simpl; try done. intros Hq.
  assert (Qfloor q = Z.of_nat k) as ->.
  { rewrite Hq. apply Qfloor_Z. }
  rewrite (proj2 (Qeq_bool_iff _ _) Hq).
  rewrite (proj2 (Z.leb_le _ _)) by lia. simpl. by rewrite Nat2Z.id.
Qed.

Lemma array_get_of_nat {A} (array : list A) (k : nat) :
  Js.array_get array (Js.of_nat k) = array !! k.
Proof. apply array_get_of. simpl. reflexivity. Qed.

Lemma array_get_cases {A} (array : list A) (i : Js.number) :
  (∃ k, Js.eqv i (Js.of_nat k) ∧ Js.array_get array i = array !! k) ∨
  ((∀ k, ¬ Js.eqv i (Js.of_nat k)) ∧ Js.array_get array i = None).
Proof.
  destruct i as [| |q|]; try (right; split; [intros k Hk; exact Hk|done]).
  destruct (Qeq_bool q (inject_Z (Qfloor q)) && (0 <=? Qfloor q)%Z) eqn:Hc.
  - left. apply andb_true_iff in Hc as [Hq%Qeq_bool_iff Hz%Z.leb_le].
    exists (Z.to_nat (Qfloor q)).
    assert (Js.eqv (Js.Finite q) (Js.of_nat (Z.to_nat (Qfloor q)))) as He.
    { simpl. by rewrite Z2Nat.id. }
    split; [done|]. by apply array_get_of.
  - right. split; [|by simpl; rewrite Hc].
    intros k Hk. pose proof (array_get_of [()] _ _ Hk) as Hget.
    simpl in Hk. simpl in Hget.
    assert (Qfloor q = Z.of_nat k) as Hf.
    { rewrite Hk. apply Qfloor_Z. }
    rewrite Hf in Hc. rewrite (proj2 (Qeq_bool_iff _ _) Hk) in Hc.
    rewrite (proj2 (Z.leb_le _ _)) in Hc by lia. done.
Qed.

(** ** [array_sort] permutes its argument *)

Section ArraySortFacts.
Context {A : Type}.
Variable compareFn : A -> A -> Js.number.

Lemma sort_insert_perm x l : Js.sort_insert compareFn x l ≡ₚ x :: l.
Proof.
  induction l as [|y l IH]; simpl; [done|].
  destruct (Js.is_positive (compareFn x y)); [|done].
  rewrite IH. apply Permutation_swap.
Qed.

Lemma array_sort_perm l : Js.array_sort compareFn l ≡ₚ l.
Proof.
  induction l as [|x l IH]; simpl; [done|].
  rewrite sort_insert_perm. by rewrite IH.
Qed.

Lemma array_sort_elem_of x l : x ∈ Js.array_sort compareFn l ↔ x ∈ l.
Proof. by rewrite array_sort_perm. Qed.
End ArraySortFacts.

(** ** Lists sorted for a relation, read through their positions *)

Section SortedLookup.
Context {A : Type} (R : relation A).

Lemma StronglySorted_lookup_2 (l : list A) :
  (∀ i j a b, i < j → l !! i = Some a → l !! j = Some b → R a b) →
  StronglySorted R l.
Proof.
  induction l as [|x l IH]; intros H; constructor.
  - apply IH. intros i j a b Hij Ha Hb. by apply (H (S i) (S j)); [lia|..].
  - apply Forall_forall. intros y Hy.
    apply list_elem_of_lookup in Hy as [j Hj].
    by apply (H 0 (S j)); [lia|..].
Qed.

Lemma StronglySorted_lookup_1 (l : list A) i j a b :
  StronglySorted R l → i < j → l !! i = Some a → l !! j = Some b → R a b.
Proof.
  intros Hl. revert i j. induction Hl as [|x l Hl IH Hx]; intros i j Hij Ha Hb.
  { by rewrite lookup_nil in Ha. }
  destruct j as [|j]; [lia|]. destruct i as [|i]; simpl in *.
  - simplify_eq. eapply Forall_forall in Hx; [done|].
    by eapply list_elem_of_lookup_2.
  - apply (IH i j); [lia|done..].
Qed.

Lemma StronglySorted_filter (P : A → Prop) `{!∀ x, Decision (P x)} l :
  StronglySorted R l → StronglySorted R (filter P l).
Proof.
  induction 1 as [|x l Hl IH Hx]; [constructor|].
  rewrite filter_cons. destruct (decide (P x)); [|done].
  constructor; [done|]. apply Forall_forall. intros y Hy.
  apply list_elem_of_filter in Hy as [_ Hy]. by eapply Forall_forall in Hx.
Qed.

End SortedLookup.

(** ** The ranking of [assignTiers] *)

Import Tiers.

Lemma ranked_before_finite a b qa qb :
  val a = Js.Finite qa → val b = Js.Finite qb →
  ranked_before a b ↔ (qb < qa)%Q ∨ ((qb == qa)%Q ∧ idx a < idx b).
Proof. intros Ha Hb. unfold ranked_before. by rewrite Ha, Hb. Qed.

Lemma byValueDesc_finite a b qa qb :
  val a = Js.Finite qa → val b = Js.Finite qb →
  byValueDesc a b = Js.Finite (qb - qa).
Proof. intros Ha Hb. unfold byValueDesc. by rewrite Ha, Hb. Qed.

Lemma byValueDesc_positive a b qa qb :
  val a = Js.Finite qa → val b = Js.Finite qb →
  Js.is_positive (byValueDesc a b) = true ↔ (qa < qb)%Q.
Proof.
  intros Ha Hb. rewrite (byValueDesc_finite a b qa qb Ha Hb), is_positive_lt.
  simpl. split; intros; lra.
Qed.

Lemma sort_insert_ranked x s :
  finite_val x → Forall finite_val s →
  StronglySorted ranked_before s →
  Forall (λ y, idx x < idx y) s →
  StronglySorted ranked_before (Js.sort_insert byValueDesc x s).
Proof.
  intros [qx Hqx] Hfin Hs. revert Hfin.
  induction Hs as [|y s Hs IH Hy]; intros Hfin Hx; simpl.
  { repeat constructor. }
  apply Forall_cons in Hx as [Hxy Hxs].
  apply Forall_cons in Hfin as [[qy Hqy] Hfin].
  destruct (Js.is_positive (byValueDesc x y)) eqn:Hpos.
  - apply (byValueDesc_positive x y qx qy Hqx Hqy) in Hpos.
    constructor; [by apply IH|].
    rewrite sort_insert_perm. constructor; [|done].
    apply (ranked_before_finite y x qy qx Hqy Hqx). by left.
  - assert (qy <= qx)%Q as Hle.
    { apply Qnot_lt_le. intros Hlt.
      apply (byValueDesc_positive x y qx qy Hqx Hqy) in Hlt. congruence. }
    constructor; [by constructor|].
    constructor.
    + apply (ranked_before_finite x y qx qy Hqx Hqy).
      destruct (Qlt_le_dec qy qx); [by left|right].
      split; [lra|done].
    + rewrite Forall_forall in Hy, Hxs, Hfin. apply Forall_forall. intros z Hz.
      specialize (Hy z Hz). specialize (Hxs z Hz).
      destruct (Hfin z Hz) as [qz Hqz].
      apply (ranked_before_finite y z qy qz Hqy Hqz) in Hy.
      apply (ranked_before_finite x z qx qz Hqx Hqz).
      destruct (Qlt_le_dec qz qx); [by left|right].
      split; [|done]. destruct Hy as [Hy|[Hy _]]; lra.
Qed.

Lemma array_sort_ranked l :
  Forall finite_val l →
  StronglySorted (λ a b, idx a < idx b) l →
  StronglySorted ranked_before (Js.array_sort byValueDesc l).
Proof.
  intros Hfin Hl. induction Hl as [|x l Hl IH Hx]; simpl; [constructor|].
  apply Forall_cons in Hfin as [Hfx Hfin].
  apply sort_insert_ranked; [done| |by apply IH|].
  - apply Forall_forall. intros y Hy. rewrite array_sort_elem_of in Hy.
    by eapply Forall_forall in Hfin.
  - apply Forall_forall. intros y Hy. rewrite array_sort_elem_of in Hy.
    by eapply Forall_forall in Hx.
Qed.


(** On finite values the comparator of the ranking is consistent. *)
Lemma byValueDesc_consistent l :
  Forall finite_val l → Js.consistent byValueDesc l.
Proof.
  intros Hfin. rewrite Forall_forall in Hfin.
  unfold Js.consistent. split_and!; apply Forall_forall; intros a Ha;
    destruct (Hfin a Ha) as [qa Hqa].
  - apply Forall_forall. intros b Hb. destruct (Hfin b Hb) as [qb Hqb].
    by rewrite (byValueDesc_finite a b qa qb).
  - rewrite (byValueDesc_finite a a qa qa) by done.
    apply is_zero_eqv. simpl. lra.
  - apply Forall_forall. intros b Hb. destruct (Hfin b Hb) as [qb Hqb].
    rewrite (byValueDesc_finite a b qa qb), (byValueDesc_finite b a qb qa)
      by done.
    rewrite !is_zero_eqv. simpl. intros. lra.
  - apply Forall_forall. intros b Hb. destruct (Hfin b Hb) as [qb Hqb].
    apply Forall_forall. intros c Hc. destruct (Hfin c Hc) as [qc Hqc].
    rewrite (byValueDesc_finite a b qa qb), (byValueDesc_finite b c qb qc),
      (byValueDesc_finite a c qa qc) by done.
    rewrite !is_zero_eqv, !is_negative_lt, !is_positive_lt. simpl.
    split_and!; intros; lra.
Qed.

Lemma StronglySorted_idx_NoDup (l : list item) :
  StronglySorted (λ a b, idx a < idx b) l → NoDup (idx <$> l).
Proof.
  induction 1 as [|x l Hl IH Hx]; [constructor|].
  rewrite fmap_cons. constructor; [|done].
  intros (y & Hxy & Hy)%list_elem_of_fmap.
  eapply Forall_forall in Hx; [|done]. lia.
Qed.

Section Ranking.
Variable engine : Js.Engine.
Variable getValue : faction → Js.number.
Variable factions : list faction.

Lemma make_items_lookup i :
  make_items getValue factions !! i
  = (λ f, Item i (getValue f) (count f)) <$> factions !! i.
Proof. unfold make_items. by rewrite list_lookup_imap. Qed.

Lemma make_items_length :
  length (make_items getValue factions) = length factions.
Proof. apply length_imap. Qed.

Lemma make_items_elem_of it :
  it ∈ make_items getValue factions ↔
  ∃ f, factions !! idx it = Some f ∧ val it = getValue f ∧ icount it = count f.
Proof.
  rewrite list_elem_of_lookup. split.
  - intros [i Hi]. rewrite make_items_lookup in Hi.
    destruct (factions !! i) as [f|] eqn:Hf; simplify_eq/=. eauto.
  - intros (f & Hf & Hv & Hc). exists (idx it).
    rewrite make_items_lookup, Hf. destruct it; simpl in *. by subst.
Qed.

Lemma make_items_sorted :
  StronglySorted (λ a b, idx a < idx b) (make_items getValue factions).
Proof.
  apply StronglySorted_lookup_2. intros i j a b Hij Ha Hb.
  rewrite make_items_lookup in Ha, Hb.
  destruct (factions !! i), (factions !! j); by simplify_eq/=.
Qed.

Lemma ranking_perm :
  ranking engine (make_items getValue factions)
  ≡ₚ filter qualifies (make_items getValue factions).
Proof. apply Js.sort_permutation. Qed.

Lemma ranking_elem_of it :
  it ∈ ranking engine (make_items getValue factions) ↔
  ∃ f, factions !! idx it = Some f ∧ val it = getValue f
       ∧ icount it = count f ∧ (3 ≤ count f)%Z.
Proof.
  rewrite ranking_perm, list_elem_of_filter, make_items_elem_of.
  unfold qualifies. split.
  - intros (Hq & f & ? & ? & Hc). exists f. rewrite <-Hc. done.
  - intros (f & ? & ? & Hc & ?). split; [lia|eauto].
Qed.

(** No two places of the ranking hold the same index, whatever the engine
    and the values. *)
Lemma ranking_idx_NoDup :
  NoDup (idx <$> ranking engine (make_items getValue factions)).
Proof.
  rewrite ranking_perm.
  apply StronglySorted_idx_NoDup, StronglySorted_filter, make_items_sorted.
Qed.

Lemma ranking_idx_inj i j a b :
  ranking engine (make_items getValue factions) !! i = Some a →
  ranking engine (make_items getValue factions) !! j = Some b →
  idx a = idx b → i = j.
Proof.
  intros Ha Hb Hidx.
  apply (NoDup_lookup _ i j (idx a) ranking_idx_NoDup).
  - by rewrite list_lookup_fmap, Ha.
  - by rewrite list_lookup_fmap, Hb, Hidx.
Qed.

(** When the qualifying values are finite the comparator is consistent: the
    engine has no choice. *)
Section Finite.
Hypothesis Hfinite : finite_qualifying getValue factions.

Lemma qualifying_finite :
  Forall finite_val (filter qualifies (make_items getValue factions)).
Proof.
  apply Forall_forall. intros it [Hq Hit]%list_elem_of_filter.
  apply make_items_elem_of in Hit as (f & Hf & Hv & Hc).
  unfold finite_val. rewrite Hv.
  apply (proj1 (Forall_forall _ _) Hfinite f).
  - by eapply list_elem_of_lookup_2.
  - unfold qualifies in Hq. lia.
Qed.

Lemma ranking_array_sort :
  ranking engine (make_items getValue factions)
  = Js.array_sort byValueDesc (filter qualifies (make_items getValue factions)).
Proof.
  apply Js.sort_consistent, byValueDesc_consistent, qualifying_finite.
Qed.

Lemma ranking_ranked :
  StronglySorted ranked_before (ranking engine (make_items getValue factions)).
Proof.
  rewrite ranking_array_sort.
  apply array_sort_ranked; [apply qualifying_finite|].
  apply StronglySorted_filter, make_items_sorted.
Qed.

End Finite.
End Ranking.
(** ** The two loops of [assignTiers] *)

Section Loops.
Variable qualifying : list item.
Hypothesis idx_inj : ∀ i j a b,
  qualifying !! i = Some a → qualifying !! j = Some b →
  idx a = idx b → i = j.

Lemma rank_upto_lookup k :
  (∀ r it, r < k → qualifying !! r = Some it →
           rank_upto qualifying k !! idx it
           = Some (tier_of_pct (percentile r (length qualifying)))) ∧
  (∀ i, (∀ r it, r < k → qualifying !! r = Some it → idx it ≠ i) →
        rank_upto qualifying k !! i = None).
Proof.
  unfold rank_upto. induction k as [|k [IHa IHb]].
  { split; [intros; lia|]. intros. apply lookup_empty. }
  rewrite seq_S, foldl_snoc. cbn [Nat.add]. unfold rank_step at 1 3.
  destruct (qualifying !! k) as [itk|] eqn:Hk.
  - split.
    + intros r it Hr Hit. destruct (decide (r = k)) as [->|Hne].
      * simplify_eq. apply lookup_insert_eq.
      * rewrite lookup_insert_ne; [apply IHa; [lia|done]|].
        intros Heq. apply Hne. symmetry. by eapply idx_inj.
    + intros i Hi. rewrite lookup_insert_ne; [|by apply (Hi k); [lia|]].
      apply IHb. intros r it Hr. apply Hi. lia.
  - split.
    + intros r it Hr Hit. apply IHa; [|done].
      destruct (decide (r = k)) as [->|]; [congruence|lia].
    + intros i Hi. apply IHb. intros r it Hr. apply Hi. lia.
Qed.

Lemma rank_loop_ranked r it :
  qualifying !! r = Some it →
  rank_loop qualifying !! idx it
  = Some (tier_of_pct (percentile r (length qualifying))).
Proof.
  intros Hit. apply (rank_upto_lookup (length qualifying)); [|done].
  by eapply lookup_lt_Some.
Qed.

Lemma rank_loop_other i :
  (∀ it, it ∈ qualifying → idx it ≠ i) → rank_loop qualifying !! i = None.
Proof.
  intros Hi. apply (rank_upto_lookup (length qualifying)).
  intros r it _ Hit. by eapply Hi, list_elem_of_lookup_2.
Qed.
End Loops.

Lemma fill_loop_lookup len (tiers : gmap nat nat) i :
  fill_loop len tiers !! i
  = match tiers !! i with
    | Some t => Some t
    | None => if decide (i < len) then Some 4 else None
    end.
Proof.
  unfold fill_loop. revert i. induction len as [|len IH]; intros i.
  { cbn [seq foldl]. destruct (tiers !! i); [done|]. by rewrite decide_False by lia. }
  rewrite seq_S, foldl_snoc. cbn [Nat.add]. unfold fill_step at 1.
  destruct (foldl fill_step tiers (seq 0 len) !! len) as [t|] eqn:Hlen.
  - rewrite IH. destruct (tiers !! i) eqn:Hi; [done|].
    destruct (decide (i = len)) as [->|Hne].
    + rewrite IH, Hi, decide_False in Hlen by lia. done.
    + destruct (decide (i < len)).
      * by rewrite decide_True by lia.
      * by rewrite decide_False by lia.
  - destruct (decide (i = len)) as [->|Hne].
    + rewrite lookup_insert_eq. rewrite IH in Hlen.
      destruct (tiers !! len); [done|]. by rewrite decide_True by lia.
    + rewrite lookup_insert_ne by done. rewrite IH.
      destruct (tiers !! i); [done|].
      destruct (decide (i < len)).
      * by rewrite decide_True by lia.
      * by rewrite decide_False by lia.
Qed.

(** What [assignTiers] holds at the index of a ranked faction, and at every
    other index. *)
Lemma assignTiers_ranked engine factions getValue r it :
  ranking engine (make_items getValue factions) !! r = Some it →
  assignTiers engine factions getValue !! idx it
  = Some (tier_of_pct
            (percentile r
               (length (ranking engine (make_items getValue factions))))).
Proof.
  intros Hit. unfold assignTiers. simpl. rewrite fill_loop_lookup.
  rewrite (rank_loop_ranked _ (ranking_idx_inj engine getValue factions)
             r it Hit).
  done.
Qed.

Lemma assignTiers_unranked engine factions getValue i :
  (∀ it, it ∈ ranking engine (make_items getValue factions) → idx it ≠ i) →
  assignTiers engine factions getValue !! i
  = if decide (i < length factions) then Some 4 else None.
Proof.
  intros Hi. unfold assignTiers. simpl. rewrite fill_loop_lookup.
  rewrite rank_loop_other; [|apply ranking_idx_inj|done].
  by rewrite make_items_length.
Qed.

(** Every index of the result is either that of a ranked faction, with the
    tier of its rank, or an index the second loop filled with D. *)
Lemma assignTiers_lookup_cases engine factions getValue i :
  let qualifying := ranking engine (make_items getValue factions) in
  (∃ r it, qualifying !! r = Some it ∧ idx it = i ∧ i < length factions ∧
     assignTiers engine factions getValue !! i
     = Some (tier_of_pct (percentile r (length qualifying)))) ∨
  ((∀ it, it ∈ qualifying → idx it ≠ i) ∧
     assignTiers engine factions getValue !! i
     = if decide (i < length factions) then Some 4 else None).
Proof.
  intros qualifying.
  destruct (decide (i ∈ idx <$> qualifying)) as [Hin|Hout].
  - left. apply list_elem_of_fmap in Hin as (it & -> & Hit).
    pose proof Hit as Hit'. apply list_elem_of_lookup in Hit as [r Hr].
    exists r, it. split_and!; [done|done| |by apply assignTiers_ranked].
    apply ranking_elem_of in Hit' as (f & Hf & _). by eapply lookup_lt_Some.
  - right. assert (∀ it, it ∈ qualifying → idx it ≠ i) as Hne.
    { intros it Hit <-. apply Hout, list_elem_of_fmap. eauto. }
    split; [done|]. by apply assignTiers_unranked.
Qed.


(** ** Percentiles and cut points *)

Lemma Qle_bool_false (x y : Q) : Qle_bool x y = false → (y < x)%Q.
Proof.
  intros H. apply Qnot_le_lt. intros Hle.
  apply Qle_bool_iff in Hle. congruence.
Qed.

Lemma tier_of_pct_cases (pct : Q) :
  ((pct <= 15 # 100)%Q ∧ tier_of_pct pct = 0) ∨
  ((15 # 100 < pct)%Q ∧ (pct <= 40 # 100)%Q ∧ tier_of_pct pct = 1) ∨
  ((40 # 100 < pct)%Q ∧ (pct <= 70 # 100)%Q ∧ tier_of_pct pct = 2) ∨
  ((70 # 100 < pct)%Q ∧ (pct <= 90 # 100)%Q ∧ tier_of_pct pct = 3) ∨
  ((90 # 100 < pct)%Q ∧ tier_of_pct pct = 4).
Proof.
  unfold tier_of_pct, cut. cbn [TIER_CUTS lookup list_lookup default from_option id].
  destruct (Qle_bool pct (15 # 100)) eqn:H0;
    [apply Qle_bool_iff in H0; tauto | apply Qle_bool_false in H0].
  destruct (Qle_bool pct (40 # 100)) eqn:H1;
    [apply Qle_bool_iff in H1; tauto | apply Qle_bool_false in H1].
  destruct (Qle_bool pct (70 # 100)) eqn:H2;
    [apply Qle_bool_iff in H2; tauto | apply Qle_bool_false in H2].
  destruct (Qle_bool pct (90 # 100)) eqn:H3;
    [apply Qle_bool_iff in H3; tauto | apply Qle_bool_false in H3].
  tauto.
Qed.

Lemma tier_of_pct_le (pct : Q) : tier_of_pct pct ≤ 4.
Proof. destruct (tier_of_pct_cases pct) as [?|[?|[?|[?|?]]]]; lia. Qed.

Lemma percentile_frac r n :
  1 < n → (percentile r n == Z.of_nat r # Pos.of_nat (n - 1))%Q.
Proof.
  intros Hn. unfold percentile. rewrite decide_True by done.
  rewrite (Qmake_Qdiv (Z.of_nat r) (Pos.of_nat (n - 1))).
  replace (Z.pos (Pos.of_nat (n - 1))) with (Z.of_nat (n - 1)); [done|].
  lia.
Qed.

Lemma percentile_first n : (percentile 0 n == 0)%Q.
Proof.
  unfold percentile. case_decide; [|done].
  unfold Qdiv. change (inject_Z (Z.of_nat 0)) with 0%Q. ring.
Qed.

Lemma percentile_last n : 1 < n → (percentile (n - 1) n == 1)%Q.
Proof.
  intros Hn. unfold percentile. rewrite decide_True by done.
  apply Qmult_inv_r. unfold Qeq. simpl. lia.
Qed.

Lemma tier_first n : tier_of_pct (percentile 0 n) = 0.
Proof.
  pose proof (percentile_first n) as Hp.
  destruct (tier_of_pct_cases (percentile 0 n)) as [H|[H|[H|[H|H]]]];
    destruct_and!; try done; lra.
Qed.

Lemma tier_last n : 1 < n → tier_of_pct (percentile (n - 1) n) = 4.
Proof.
  intros Hn. pose proof (percentile_last n Hn) as Hp.
  destruct (tier_of_pct_cases (percentile (n - 1) n)) as [H|[H|[H|[H|H]]]];
    destruct_and!; try done; lra.
Qed.

(** ** The tiers *)




(** C2.  A faction whose [count] is below 3 gets tier D (4) whatever its
    value is, and the factions that enter the percentile ranking are exactly
    those with [count >= 3]. *)
Theorem assignTiers_small_sample (engine : Js.Engine)
    (factions : list faction) (getValue : faction → Js.number)
    (i : nat) (f : faction) :
  factions !! i = Some f →
  ((count f < 3)%Z → assignTiers engine factions getValue !! i = Some 4) ∧
  ((∃ it, it ∈ ranking engine (make_items getValue factions) ∧ idx it = i)
   ↔ (3 ≤ count f)%Z).
Proof.
  intros Hf. split.
  - intros Hsmall. rewrite assignTiers_unranked.
    + rewrite decide_True; [done|]. by eapply lookup_lt_Some.
    + intros it Hit Hidx. apply ranking_elem_of in Hit as (f' & Hf' & _ & _ & ?).
      rewrite Hidx in Hf'. simplify_eq. lia.
  - split.
    + intros (it & Hit & Hidx).
      apply ranking_elem_of in Hit as (f' & Hf' & _ & _ & ?).
      rewrite Hidx in Hf'. by simplify_eq.
    + intros Hq. exists (Item i (getValue f) (count f)). split; [|done].
      apply ranking_elem_of. exists f. done.
Qed.

Lemma assignTiers_small_sample_witness :
  let factions := [Faction "Orks" (Js.Finite (99 # 100)) 2;
                   Faction "Necrons" Js.NaN 10] in
  factions !! 0 = Some (Faction "Orks" (Js.Finite (99 # 100)) 2) ∧
  (2 < 3)%Z ∧
  assignTiers Js.insertion_engine factions win_rate !! 0 = Some 4.
Proof.
  intros factions. split; [reflexivity|]. split; [lia|].
  apply (assignTiers_small_sample Js.insertion_engine factions win_rate 0
           (Faction "Orks" (Js.Finite (99 # 100)) 2));
    [reflexivity|simpl; lia].
Defined.




(** C9.  The result of [assignTiers] is defined at every index of the input
    array, at no other index, and holds one of the tier indices 0 to 4, each
    of which has a label. *)
Theorem assignTiers_total (engine : Js.Engine)
    (factions : list faction) (getValue : faction → Js.number) :
  (∀ i, i < length factions →
        ∃ tier, assignTiers engine factions getValue !! i = Some tier
                ∧ tier ≤ 4
                ∧ TIER_LABELS !! tier = Some (tierLabel (Js.of_nat tier))) ∧
  (∀ i, length factions ≤ i →
        assignTiers engine factions getValue !! i = None).
Proof.
  assert (∀ t, t ≤ 4 → TIER_LABELS !! t = Some (tierLabel (Js.of_nat t)))
    as Hlabel.
  { intros t Ht. unfold tierLabel. rewrite array_get_of_nat.
    do 5 (destruct t as [|t]; [done|]). lia. }
  split; intros i Hi.
  - destruct (assignTiers_lookup_cases engine factions getValue i)
      as [(r & it & _ & _ & _ & ->)|[_ ->]].
    + eexists. split_and!; [done|apply tier_of_pct_le|apply Hlabel, tier_of_pct_le].
    + rewrite decide_True by done. eexists. split_and!; [done|lia|by apply Hlabel].
  - destruct (assignTiers_lookup_cases engine factions getValue i)
      as [(r & it & _ & _ & ? & _)|[_ ->]]; [lia|].
    by rewrite decide_False by lia.
Qed.

Lemma assignTiers_total_witness :
  let factions := [Faction "Orks" (Js.Finite (60 # 100)) 2;
                   Faction "Necrons" Js.NaN 10] in
  (∃ tier, assignTiers Js.insertion_engine factions win_rate !! 1 = Some tier
           ∧ tier ≤ 4
           ∧ TIER_LABELS !! tier = Some (tierLabel (Js.of_nat tier))) ∧
  assignTiers Js.insertion_engine factions win_rate !! 2 = None.
Proof.
  intros factions. split.
  - apply (proj1 (assignTiers_total Js.insertion_engine factions win_rate) 1).
    simpl. lia.
  - apply (proj2 (assignTiers_total Js.insertion_engine factions win_rate) 2).
    simpl. lia.
Defined.

(** ** The order of the ranking *)




(** The cases of [tiers.test.js]. *)
Example assignTiers_no_faction engine : assignTiers engine [] win_rate = ∅.
Proof.
  unfold assignTiers. cbn zeta.
  pose proof (Js.sort_permutation engine _ byValueDesc
                (filter qualifies (make_items win_rate []))) as Hperm.
  apply Permutation_nil_r in Hperm. unfold ranking. by rewrite Hperm.
Qed.

Example assignTiers_single_faction :
  assignTiers Js.insertion_engine
    [Faction "Orks" (Js.Finite (55 # 100)) 10] win_rate !! 0 = Some 0.
Proof. reflexivity. Qed.

Example assignTiers_twenty_factions :
  let factions :=
    map (λ i, Faction "Orks" (Js.Finite ((60 - Z.of_nat i) # 100)) 10)
        (seq 0 20) in
  assignTiers Js.insertion_engine factions win_rate !! 0 = Some 0 ∧
  assignTiers Js.insertion_engine factions win_rate !! 19 = Some 4.
Proof. split; vm_compute; reflexivity. Qed.

Example tierLabel_out_of_range :
  tierLabel (Js.of_nat 99) = "D"%string ∧
  tierLabel (Js.Finite (-1)) = "D"%string.
Proof. split; reflexivity. Qed.

(** ** The epoch resolver *)

Import Epochs.

Section MaxByKey.
Context {A : Type} (key : A → Z).

Lemma max_fold_spec (l : list A) (x : A) :
  let m := foldl (λ best y, if (key y <? key best)%Z then best else y) x l in
  m ∈ x :: l ∧ ∀ y, y ∈ x :: l → (key y ≤ key m)%Z.
Proof.
  revert x. induction l as [|z l IH]; intros x; simpl.
  { split; [left|]. intros y ->%list_elem_of_singleton. lia. }
  destruct (IH (if (key z <? key x)%Z then x else z)) as [Hin Hmax].
  split.
  - destruct (key z <? key x)%Z;
      apply elem_of_cons in Hin as [Hin|Hin]; rewrite ?Hin;
      [left|right; by right|right; left|right; by right].
  - intros y Hy. destruct (Z.ltb_spec (key z) (key x)).
    + apply elem_of_cons in Hy as [->|[->|Hy]%elem_of_cons].
      * apply Hmax. left.
      * etrans; [|apply (Hmax x); left]. lia.
      * apply Hmax. by right.
    + apply elem_of_cons in Hy as [->|[->|Hy]%elem_of_cons].
      * etrans; [|apply (Hmax z); left]. lia.
      * apply Hmax. left.
      * apply Hmax. by right.
Qed.

Lemma max_by_key_Some l m :
  max_by_key key l = Some m → m ∈ l ∧ ∀ y, y ∈ l → (key y ≤ key m)%Z.
Proof.
  destruct l as [|x l]; [done|]. intros [= <-]. apply max_fold_spec.
Qed.

Lemma max_by_key_None l : max_by_key key l = None ↔ l = [].
Proof. by destruct l. Qed.
End MaxByKey.

Lemma governing_event_Some d events e :
  governing_event d events = Some e →
  e ∈ events ∧ (date e ≤ d)%Z ∧
  ∀ e', e' ∈ events → (date e' ≤ d)%Z → (date e' ≤ date e)%Z.
Proof.
  intros [Hin Hmax]%max_by_key_Some.
  apply list_elem_of_filter in Hin as [? ?]. split_and!; [done..|].
  intros e' ? ?. apply Hmax. by apply list_elem_of_filter.
Qed.

Lemma governing_event_None d events :
  governing_event d events = None ↔ ∀ e, e ∈ events → (d < date e)%Z.
Proof.
  unfold governing_event. rewrite max_by_key_None. split.
  - intros Hnil e He. destruct (decide (date e ≤ d)%Z) as [Hle|]; [|lia].
    assert (e ∈ filter (λ e, (date e ≤ d)%Z) events) as Hin
      by (by apply list_elem_of_filter).
    rewrite Hnil in Hin. by apply elem_of_nil in Hin.
  - intros Hall. induction events as [|e events IH]; [done|].
    rewrite filter_cons. destruct (decide (date e ≤ d)%Z) as [Hle|_].
    + specialize (Hall e ltac:(left)). lia.
    + apply IH. intros e' He'. apply Hall. by right.
Qed.

(** C5.  [get_epoch_for_date] is defined on every date and every list of
    boundary events.  When some event has [date <= d], the result is the
    identifier of such an event whose date is the greatest among them; when
    none has, and so on the empty list, the result is
    [PRE_TRACKING_EPOCH_ID]. *)
Theorem get_epoch_for_date_latest_or_pre_tracking
    {EpochId : Type} (epoch_id_from_event : SignificantEvent → EpochId)
    (PRE_TRACKING_EPOCH_ID : EpochId)
    (d : NaiveDate) (events : list SignificantEvent) :
  let resolved :=
    get_epoch_for_date epoch_id_from_event PRE_TRACKING_EPOCH_ID d events in
  ((∃ e, e ∈ events ∧ (date e ≤ d)%Z ∧
         (∀ e', e' ∈ events → (date e' ≤ d)%Z → (date e' ≤ date e)%Z) ∧
         resolved = epoch_id_from_event e)
   ∨ ((∀ e, e ∈ events → ¬ (date e ≤ d)%Z) ∧
      resolved = PRE_TRACKING_EPOCH_ID)) ∧
  get_epoch_for_date epoch_id_from_event PRE_TRACKING_EPOCH_ID d []
  = PRE_TRACKING_EPOCH_ID.
Proof.
  intros resolved. split; [|done]. subst resolved. unfold get_epoch_for_date.
  destruct (governing_event d events) as [e|] eqn:He.
  - left. apply governing_event_Some in He as (? & ? & ?). by exists e.
  - right. split; [|done]. intros e Hin.
    pose proof (proj1 (governing_event_None d events) He e Hin). lia.
Qed.

Lemma get_epoch_for_date_latest_or_pre_tracking_witness :
  let e1 := {| id := "e1"; event_type := balance_update;
               date := ymd 2025 6 15; title := "Balance Dataslate June 2025" |} in
  get_epoch_for_date id "pre_tracking"%string (ymd 2025 7 12) [e1] = "e1"%string.
Proof.
  intros e1.
  destruct (proj1 (get_epoch_for_date_latest_or_pre_tracking
                     id "pre_tracking"%string (ymd 2025 7 12) [e1]))
    as [(e & Hin & _ & _ & ->)|[Hnone _]].
  - apply list_elem_of_singleton in Hin. rewrite Hin. reflexivity.
  - destruct (Hnone e1); [left|]. vm_compute. discriminate.
Defined.

(** C6.  Resolution is monotonic in the date: when [d1 < d2] and both dates
    have a governing boundary event, the one of [d2] does not start before
    the one of [d1].  This holds for every list of boundary events, so for
    the non-overlapping, contiguous ones. *)
Theorem governing_event_monotonic
    (events : list SignificantEvent) (d1 d2 : NaiveDate)
    (e1 e2 : SignificantEvent) :
  (d1 < d2)%Z →
  governing_event d1 events = Some e1 →
  governing_event d2 events = Some e2 →
  (date e1 ≤ date e2)%Z.
Proof.
  intros Hlt (Hin1 & Hle1 & _)%governing_event_Some
             (_ & _ & Hmax2)%governing_event_Some.
  apply Hmax2; [done|lia].
Qed.

Lemma governing_event_monotonic_witness :
  let e1 := {| id := "e1"; event_type := balance_update;
               date := ymd 2025 6 15; title := "Balance Dataslate June 2025" |} in
  let e2 := {| id := "e2"; event_type := edition_release;
               date := ymd 2025 9 20; title := "Edition release" |} in
  (date e1 ≤ date e2)%Z.
Proof.
  intros e1 e2.
  apply (governing_event_monotonic [e2; e1] (ymd 2025 7 12) (ymd 2025 10 1) e1 e2);
    [vm_compute; reflexivity|reflexivity|reflexivity].
Defined.

(** The scenario of the specification: a date before the only boundary. *)
Example pre_tracking_scenario :
  get_epoch_for_date id "pre_tracking"%string (ymd 2025 1 1)
    [{| id := "e1"; event_type := balance_update;
        date := ymd 2025 6 15; title := "Balance Dataslate June 2025" |}]
  = "pre_tracking"%string.
Proof. reflexivity. Qed.

(** ** Over-representation *)

Import Metrics.

Lemma ratio_nonneg a b : (0 <= ratio a b)%Q.
Proof.
  unfold ratio, Qdiv. apply Qmult_le_0_compat.
  - change 0%Q with (inject_Z 0). rewrite <-Zle_Qle. lia.
  - apply Qinv_le_0_compat. change 0%Q with (inject_Z 0).
    rewrite <-Zle_Qle. lia.
Qed.

Lemma Qdiv_gt_1 (s m : Q) : (0 < m)%Q → (1 < s / m)%Q ↔ (m < s)%Q.
Proof.
  intros Hm. rewrite <-(Qmult_lt_r 1 (s / m) m Hm).
  assert (s / m * m == s)%Q as -> by (field; lra).
  by rewrite Qmult_1_l.
Qed.

Lemma ratio_zero_total a : (ratio a 0 == 0)%Q.
Proof. unfold ratio, Qdiv. change (/ inject_Z (Z.of_N 0))%Q with 0%Q. ring. Qed.

(** C7.  [over_representation] is null when [meta_share] is zero (and when
    there is no top-4 place at all); when it is not null its value is
    [(top4 / total_top4) / meta_share]; and when [meta_share] is not zero it
    is above 1 exactly when the faction's share of the top-4 places is above
    its share of the players. *)
Theorem over_representation_above_one
    (top4 total_top4 player_count total_players : N) :
  let share := meta_share player_count total_players in
  let over := over_representation top4 total_top4 share in
  ((share == 0)%Q ∨ total_top4 = 0%N → over = None) ∧
  (∀ v, over = Some v →
        v = ((inject_Z (Z.of_N top4) / inject_Z (Z.of_N total_top4)) / share)%Q) ∧
  (¬ (share == 0)%Q → total_top4 ≠ 0%N → is_Some over) ∧
  (¬ (share == 0)%Q →
     ((∃ v, over = Some v ∧ (1 < v)%Q)
      ↔ (share < inject_Z (Z.of_N top4) / inject_Z (Z.of_N total_top4))%Q)).
Proof.
  intros share over. subst over. unfold over_representation.
  fold (ratio top4 total_top4).
  destruct (Qeq_bool share 0) eqn:Hz; simpl.
  { apply Qeq_bool_iff in Hz. by split_and!. }
  apply Qeq_bool_neq in Hz.
  assert (0 < share)%Q as Hpos.
  { pose proof (ratio_nonneg player_count total_players). fold share in Hz.
    unfold share, meta_share in *. lra. }
  destruct (N.eqb_spec total_top4 0) as [->|Hne].
  - split_and!; try done.
    intros _. pose proof (ratio_zero_total top4).
    split; [intros (? & [=] & _)|intros ?; lra].
  - split_and!; [by intros [?|?]|by intros v [= <-]|by eauto|].
    intros _. split.
    + intros (v & [= <-] & Hv).
      by apply (Qdiv_gt_1 (ratio top4 total_top4) share Hpos).
    + intros Hs. eexists. split; [done|].
      by apply (Qdiv_gt_1 (ratio top4 total_top4) share Hpos).
Qed.

Lemma over_representation_above_one_witness :
  ∃ v, over_representation 4 20 (meta_share 10 100) = Some v ∧ (1 < v)%Q.
Proof.
  assert (¬ (meta_share 10 100 == 0)%Q) as Hshare
    by (intros Heq; vm_compute in Heq; discriminate).
  destruct (over_representation_above_one 4 20 10 100) as (_ & _ & _ & H).
  apply (proj2 (H Hshare)). reflexivity.
Defined.

(** ** The 4-0 and 5-0 starts *)

Section AggregatorFacts.
Import Aggregator.

Variable event_date : string → Z.
Variable event_players : string → N.
Variable include_needs_review : bool.
Variable epoch : string.
Variable range : option Z * option Z.

Lemma perfect_start_exact n p :
  perfect_start n (record p) = true ↔ exact_start n p.
Proof.
  unfold perfect_start, exact_start. destruct (record p) as [g|].
  - rewrite !andb_true_iff, !N.eqb_eq. split.
    + intros [[? ?] ?]. by exists g.
    + intros (g' & [= <-] & ? & ? & ?). done.
  - split; [done|]. by intros (g & ? & _).
Qed.

Lemma counted_start_decide n p :
  included event_date include_needs_review epoch range p = true →
  valid p = true →
  bool_decide (counted event_date include_needs_review epoch range
                       (faction p) p ∧ exact_start n p)
  = perfect_start n (record p).
Proof.
  intros Hinc Hval. destruct (perfect_start n (record p)) eqn:Hp.
  - apply bool_decide_eq_true_2. split; [done|].
    by apply perfect_start_exact.
  - apply bool_decide_eq_false_2. intros [_ He%perfect_start_exact].
    congruence.
Qed.

Lemma aggregate_step_starts acc p f :
  let acc' := aggregate_step event_date event_players include_needs_review
                             epoch range acc p in
  four_zero_starts acc'.1 f
  = bump (bool_decide (counted event_date include_needs_review epoch range f p
                       ∧ exact_start 4 p))
         (four_zero_starts acc.1 f) ∧
  five_zero_starts acc'.1 f
  = bump (bool_decide (counted event_date include_needs_review epoch range f p
                       ∧ exact_start 5 p))
         (five_zero_starts acc.1 f).
Proof.
  cbn zeta. unfold aggregate_step.
  destruct (included _ _ _ _ p) eqn:Hinc; cbn [negb].
  2: { rewrite !bool_decide_eq_false_2; [done|..];
         intros [(? & _) _]; congruence. }
  destruct (valid p) eqn:Hval; cbn [negb fst snd].
  2: { rewrite !bool_decide_eq_false_2; [done|..];
         intros [(_ & ? & _) _]; congruence. }
  unfold four_zero_starts, five_zero_starts.
  destruct (decide (faction p = f)) as [<-|Hne].
  - rewrite lookup_insert_eq, !counted_start_decide by done. done.
  - rewrite lookup_insert_ne by done.
    rewrite !bool_decide_eq_false_2; [done|..];
      intros [(_ & _ & ?) _]; congruence.
Qed.

Lemma aggregate_fold_starts records acc f :
  let acc' := foldl (aggregate_step event_date event_players
                       include_needs_review epoch range) acc records in
  four_zero_starts acc'.1 f
  = (four_zero_starts acc.1 f
     + N.of_nat (length (filter
         (λ p, counted event_date include_needs_review epoch range f p
               ∧ exact_start 4 p) records)))%N ∧
  five_zero_starts acc'.1 f
  = (five_zero_starts acc.1 f
     + N.of_nat (length (filter
         (λ p, counted event_date include_needs_review epoch range f p
               ∧ exact_start 5 p) records)))%N.
Proof.
  cbn zeta. revert acc. induction records as [|p records IH]; intros acc.
  { simpl. by rewrite !N.add_0_r. }
  cbn [foldl]. destruct (IH (aggregate_step event_date event_players
                               include_needs_review epoch range acc p))
    as [-> ->].
  destruct (aggregate_step_starts acc p f) as [-> ->].
  rewrite !filter_cons. split.
  - destruct (decide (counted event_date include_needs_review epoch range f p
                      ∧ exact_start 4 p)).
    + rewrite bool_decide_eq_true_2 by done. simpl length. unfold bump. lia.
    + rewrite bool_decide_eq_false_2 by done. done.
  - destruct (decide (counted event_date include_needs_review epoch range f p
                      ∧ exact_start 5 p)).
    + rewrite bool_decide_eq_true_2 by done. simpl length. unfold bump. lia.
    + rewrite bool_decide_eq_false_2 by done. done.
Qed.

(** C8.  In the result of an aggregation, the 4-0 starts of a faction are the
    counted placements of that faction whose record has no loss, no draw and
    exactly 4 wins, and its 5-0 starts those with exactly 5 wins.  So a
    record of 5 wins, no loss and no draw adds to the 5-0 starts and not to
    the 4-0 starts, and a record of 6 wins, no loss and no draw adds to
    neither. *)
Theorem aggregate_perfect_starts (records : list PlacementRecord) (f : string) :
  let result :=
    (aggregate event_date event_players include_needs_review
               records epoch range).1 in
  four_zero_starts result f
  = N.of_nat (length (filter
      (λ p, counted event_date include_needs_review epoch range f p
            ∧ exact_start 4 p) records)) ∧
  five_zero_starts result f
  = N.of_nat (length (filter
      (λ p, counted event_date include_needs_review epoch range f p
            ∧ exact_start 5 p) records)) ∧
  ∀ (players : N) (c : FactionCounters) (p : PlacementRecord),
    (record p = Some {| wins := 5; losses := 0; draws := 0 |} →
     five_zero_count (add_placement players c p) = (five_zero_count c + 1)%N ∧
     four_zero_count (add_placement players c p) = four_zero_count c) ∧
    (record p = Some {| wins := 6; losses := 0; draws := 0 |} →
     five_zero_count (add_placement players c p) = five_zero_count c ∧
     four_zero_count (add_placement players c p) = four_zero_count c).
Proof.
  intros result. subst result. unfold aggregate.
  destruct (aggregate_fold_starts records (∅, []) f) as [H4 H5].
  rewrite H4, H5. unfold four_zero_starts, five_zero_starts.
  cbn [fst]. rewrite lookup_empty. split_and!; [done..|].
  intros players c p.
  split; intros Hr; unfold add_placement; cbn [four_zero_count five_zero_count];
    by rewrite Hr.
Qed.
End AggregatorFacts.

Lemma aggregate_perfect_starts_witness :
  let p5 := {| Aggregator.event_id := "london-gt"; Aggregator.epoch_id := "e1";
               Aggregator.rank := 1; Aggregator.faction := "Aeldari";
               Aggregator.record :=
                 Some {| Aggregator.wins := 5; Aggregator.losses := 0;
                         Aggregator.draws := 0 |};
               Aggregator.confidence := Aggregator.high;
               Aggregator.needs_review := false |} in
  Aggregator.five_zero_count
    (Aggregator.add_placement 120 Aggregator.no_counters p5) = 1%N ∧
  Aggregator.four_zero_count
    (Aggregator.add_placement 120 Aggregator.no_counters p5) = 0%N.
Proof.
  intros p5.
  destruct (aggregate_perfect_starts (λ _, Epochs.ymd 2025 7 12) (λ _, 120%N)
              true "e1" (None, None) [p5] "Aeldari") as (_ & _ & H).
  apply (H 120%N Aggregator.no_counters p5). reflexivity.
Defined.

(** The scenario of the specification: five placements of one event, of
    which one has a 5-0 record and none a 4-0 record. *)
Example aeldari_scenario :
  let placement (r : Z) (w l : N) :=
    {| Aggregator.event_id := "london-gt"; Aggregator.epoch_id := "e1";
       Aggregator.rank := r; Aggregator.faction := "Aeldari";
       Aggregator.record :=
         Some {| Aggregator.wins := w; Aggregator.losses := l;
                 Aggregator.draws := 0 |};
       Aggregator.confidence := Aggregator.high;
       Aggregator.needs_review := false |} in
  let result :=
    (Aggregator.aggregate (λ _, Epochs.ymd 2025 7 12) (λ _, 120%N) true
       [placement 1%Z 5%N 0%N; placement 2%Z 4%N 1%N; placement 3%Z 3%N 2%N;
        placement 4%Z 2%N 3%N; placement 5%Z 1%N 4%N] "e1" (Some (Epochs.ymd 2025 6 15), None)).1 in
  Aggregator.five_zero_starts result "Aeldari" = 1%N ∧
  Aggregator.four_zero_starts result "Aeldari" = 0%N.
Proof. split; vm_compute; reflexivity. Qed.

(** ** The API client *)

Import Api.

Lemma append_empty_r (s : string) : s +:+ EmptyString = s.
Proof.
  induction s as [|a s IH]; [done|].
  change (String a (s +:+ EmptyString) = String a s). by rewrite IH.
Qed.

Lemma mentions_suffix label needle : mentions needle (label +:+ needle).
Proof. exists label, EmptyString. by rewrite append_empty_r. Qed.

Lemma status_branch {Json} (label : string) (res : Response Json) :
  (if negb (ok res)
   then Rejected (Error (label +:+ pretty (status res)))
   else json res)
  = (if ok res then json res
     else Rejected (Error (label +:+ pretty (status res)))).
Proof. by destruct (ok res). Qed.

(** C10, as amended.  For a fetch that completes, each of the four methods
    rejects with the error made of its label and the response's status when
    [ok] is false, a message that contains the status, and otherwise settles
    as [res.json()] does. *)
Theorem createApi_methods_settle {Json : Type}
    (encodeURIComponent : string → string)
    (global_fetch : option (string → Settled (Response Json)))
    (server : string → Response Json) :
  let api := createApi encodeURIComponent global_fetch
                       (Some (λ url, Fulfilled (server url))) in
  (∀ page pageSize epoch from to hasResults, ∃ url,
     settles_by_response "Events API error: " (server url)
       (getEvents api page pageSize epoch from to hasResults)) ∧
  (∀ id epoch, ∃ url,
     settles_by_response "Event API error: " (server url)
       (getEvent api id epoch)) ∧
  (∀ epoch from to, ∃ url,
     settles_by_response "Meta API error: " (server url)
       (getFactionStats api epoch from to)) ∧
  settles_by_response "Epochs API error: " (server "/api/epochs")
    (getEpochs api).
Proof.
  intros api. subst api.
  split_and!; [intros; eexists..|];
    (split; [apply status_branch|apply mentions_suffix]).
Qed.

(** C10, as stated, fails: a response with [ok] true whose body does not
    parse makes [getEpochs] reject, with an error that is not the status
    error, instead of returning a body. *)
Lemma getEpochs_unparsable_body :
  let res : Response string :=
    {| ok := true; status := 200;
       json := Rejected (Error "Unexpected token < in JSON at position 0") |} in
  let api := createApi (λ s, s) None (Some (λ _, Fulfilled res)) in
  getEpochs api = Rejected (Error "Unexpected token < in JSON at position 0") ∧
  ¬ throws_or_returns res (getEpochs api).
Proof.
  intros res api. split; [reflexivity|].
  intros [_ Hreturns]. destruct (Hreturns eq_refl) as [body Hbody].
  discriminate Hbody.
Qed.

(** The cases of the client's test file: the address asked for, read back
    through a server that answers with it, and the errors. *)
Example getEvents_default_url :
  getEvents (createApi (λ s, s) None
               (Some (λ url, Fulfilled {| ok := true; status := 200;
                                          json := Fulfilled url |})))
            None None None None None false
  = Fulfilled "/api/events?page=1&page_size=20"%string.
Proof. reflexivity. Qed.

Example getEvents_all_params_url :
  getEvents (createApi (λ s, s) None
               (Some (λ url, Fulfilled {| ok := true; status := 200;
                                          json := Fulfilled url |})))
            (Some 2%N) (Some 50%N) (Some "epoch-001"%string)
            (Some "2025-01-01"%string) (Some "2025-06-30"%string) false
  = Fulfilled
      "/api/events?page=2&page_size=50&epoch=epoch-001&from=2025-01-01&to=2025-06-30"%string.
Proof. reflexivity. Qed.

Example getEvent_current_epoch_url :
  getEvent (createApi (λ s, s) None
              (Some (λ url, Fulfilled {| ok := true; status := 200;
                                         json := Fulfilled url |})))
           "abc123" (Some "current"%string)
  = Fulfilled "/api/events/abc123"%string.
Proof. reflexivity. Qed.

Example getEvent_not_found :
  getEvent (createApi (Json := string) (λ s, s) None
              (Some (λ url, Fulfilled {| ok := false; status := 404;
                                         json := Fulfilled url |})))
           "bad-id" None
  = Rejected (Error "Event API error: 404").
Proof. reflexivity. Qed.

(** * Part III: further properties of the code *)

(** ** Tiers along the ranking *)

Lemma percentile_mono r1 r2 n :
  r1 ≤ r2 → (percentile r1 n <= percentile r2 n)%Q.
Proof.
  intros Hr. unfold percentile. case_decide; [|apply Qle_refl].
  unfold Qdiv. apply Qmult_le_compat_r.
  - rewrite <-Zle_Qle. lia.
  - apply Qinv_le_0_compat. change 0%Q with (inject_Z 0).
    rewrite <-Zle_Qle. lia.
Qed.

Lemma tier_of_pct_mono p q : (p <= q)%Q → tier_of_pct p ≤ tier_of_pct q.
Proof.
  intros Hpq.
  destruct (tier_of_pct_cases p) as [Hp|[Hp|[Hp|[Hp|Hp]]]];
    destruct (tier_of_pct_cases q) as [Hq|[Hq|[Hq|[Hq|Hq]]]];
    destruct_and!; try lia; lra.
Qed.

(** The place of a qualifying faction in the ranking. *)
Lemma ranking_position engine factions getValue i f :
  factions !! i = Some f → (3 ≤ count f)%Z →
  ∃ r, ranking engine (make_items getValue factions) !! r
       = Some (Item i (getValue f) (count f)).
Proof.
  intros Hf Hq. apply list_elem_of_lookup, ranking_elem_of. by exists f.
Qed.

(** X1.  Among qualifying factions of finite value a higher value never
    gives a worse tier: the tier index of a faction is at most that of any
    faction with a strictly lower value. *)
Theorem assignTiers_higher_value_no_worse (engine : Js.Engine)
    (factions : list faction) (getValue : faction → Js.number)
    (i j : nat) (fi fj : faction) :
  finite_qualifying getValue factions →
  factions !! i = Some fi → factions !! j = Some fj →
  (3 ≤ count fi)%Z → (3 ≤ count fj)%Z →
  Js.lt (getValue fj) (getValue fi) →
  ∃ ti tj, assignTiers engine factions getValue !! i = Some ti ∧
           assignTiers engine factions getValue !! j = Some tj ∧ ti ≤ tj.
Proof.
  intros Hfin Hfi Hfj Hqi Hqj Hlt.
  destruct (ranking_position engine factions getValue i fi Hfi Hqi) as [ri Hri].
  destruct (ranking_position engine factions getValue j fj Hfj Hqj) as [rj Hrj].
  pose proof (assignTiers_ranked _ _ _ _ _ Hri) as Hti.
  pose proof (assignTiers_ranked _ _ _ _ _ Hrj) as Htj.
  simpl in Hti, Htj. do 2 eexists. split_and!; [done..|].
  apply tier_of_pct_mono, percentile_mono.
  destruct (le_lt_dec ri rj) as [|Hgt]; [done|].
  pose proof (StronglySorted_lookup_1 _ _ _ _ _ _
                (ranking_ranked engine getValue factions Hfin) Hgt Hrj Hri)
    as Hji.
  unfold ranked_before in Hji. simpl in Hji.
  destruct (getValue fi) as [| |qi|], (getValue fj) as [| |qj|]; simpl in *;
    destruct Hji as [?|[? _]]; try done; lra.
Qed.

Lemma assignTiers_higher_value_no_worse_witness :
  let factions := [Faction "Orks" (Js.Finite (45 # 100)) 10;
                   Faction "Necrons" (Js.Finite (55 # 100)) 10;
                   Faction "Aeldari" Js.NaN 2] in
  ∃ ti tj, assignTiers Js.reversing_engine factions win_rate !! 1 = Some ti ∧
           assignTiers Js.reversing_engine factions win_rate !! 0 = Some tj ∧
           ti ≤ tj.
Proof.
  intros factions.
  apply (assignTiers_higher_value_no_worse Js.reversing_engine factions
           win_rate 1 0
           (Faction "Necrons" (Js.Finite (55 # 100)) 10)
           (Faction "Orks" (Js.Finite (45 # 100)) 10));
    [finite_values|reflexivity|reflexivity|simpl; lia|simpl; lia|reflexivity].
Defined.

(** X2.  The cut points in whole numbers: the faction ranked [r]-th of
    [n > 1] qualifying ones gets S exactly when [20 r <= 3 (n - 1)], S or A
    exactly when [5 r <= 2 (n - 1)], at most B exactly when
    [10 r <= 7 (n - 1)], and at most C exactly when [10 r <= 9 (n - 1)]. *)
Theorem assignTiers_integer_cuts (engine : Js.Engine)
    (factions : list faction) (getValue : faction → Js.number)
    (r : nat) (it : item) :
  let n := length (ranking engine (make_items getValue factions)) in
  ranking engine (make_items getValue factions) !! r = Some it →
  1 < n →
  ∃ tier, assignTiers engine factions getValue !! idx it = Some tier ∧
    (tier = 0 ↔ 20 * r ≤ 3 * (n - 1)) ∧
    (tier ≤ 1 ↔ 5 * r ≤ 2 * (n - 1)) ∧
    (tier ≤ 2 ↔ 10 * r ≤ 7 * (n - 1)) ∧
    (tier ≤ 3 ↔ 10 * r ≤ 9 * (n - 1)).
Proof.
  intros n Hit Hn. eexists. split; [by apply assignTiers_ranked|].
  fold n. pose proof (percentile_frac r n Hn) as Hp.
  assert (∀ a b : Z, (0 < b)%Z →
    ((percentile r n <= a # Z.to_pos b)%Q
     ↔ (Z.of_nat r * b ≤ a * Z.of_nat (n - 1))%Z)) as Hle.
  { intros a b Hb. rewrite Hp. unfold Qle. simpl.
    rewrite Z2Pos.id by done.
    replace (Z.pos (Pos.of_nat (n - 1))) with (Z.of_nat (n - 1)) by lia.
    done. }
  pose proof (Hle 15 100 ltac:(done))%Z as H0.
  pose proof (Hle 40 100 ltac:(done))%Z as H1.
  pose proof (Hle 70 100 ltac:(done))%Z as H2.
  pose proof (Hle 90 100 ltac:(done))%Z as H3.
  change (15 # Z.to_pos 100)%Q with (15 # 100)%Q in H0.
  change (40 # Z.to_pos 100)%Q with (40 # 100)%Q in H1.
  change (70 # Z.to_pos 100)%Q with (70 # 100)%Q in H2.
  change (90 # Z.to_pos 100)%Q with (90 # 100)%Q in H3.
  assert (∀ x y : Q, (x < y)%Q → ¬ (y <= x)%Q) as Hnle
    by (intros x y ? ?; lra).
  destruct (tier_of_pct_cases (percentile r n)) as [H|[H|[H|[H|H]]]];
    destruct_and!;
    repeat match goal with
           | Hlt : (_ < percentile r n)%Q |- _ => apply Hnle in Hlt
           end;
    match goal with He : tier_of_pct _ = _ |- _ => rewrite He end;
    rewrite ?H0, ?H1, ?H2, ?H3 in *; lia.
Qed.

Lemma assignTiers_integer_cuts_witness :
  let factions :=
    map (λ i, Faction "Orks" (Js.Finite ((60 - Z.of_nat i) # 100)) 10)
        (seq 0 21) in
  ∃ tier, assignTiers Js.insertion_engine factions win_rate !! 3 = Some tier
          ∧ tier = 0.
Proof.
  intros factions.
  destruct (assignTiers_integer_cuts Js.insertion_engine factions win_rate 3
              (Item 3 (Js.Finite (57 # 100)) 10))
    as (tier & Ht & H0 & _); [reflexivity|vm_compute; lia|].
  exists tier. split; [exact Ht|]. apply H0. vm_compute. lia.
Defined.

(** ** The tiers depend on the order of the qualifying values only *)

Section SortExt.
Context {A B : Type}.

Lemma sort_insert_fmap (F : A → B) (compareFn : B → B → Js.number) x s :
  Js.sort_insert compareFn (F x) (F <$> s)
  = F <$> Js.sort_insert (λ a b, compareFn (F a) (F b)) x s.
Proof.
  induction s as [|y s IH]; [done|].
  rewrite fmap_cons. cbn [Js.sort_insert].
  destruct (Js.is_positive (compareFn (F x) (F y))); [|done].
  by rewrite fmap_cons, IH.
Qed.

Lemma array_sort_fmap (F : A → B) (compareFn : B → B → Js.number) l :
  Js.array_sort compareFn (F <$> l)
  = F <$> Js.array_sort (λ a b, compareFn (F a) (F b)) l.
Proof.
  unfold Js.array_sort. induction l as [|x l IH]; [done|].
  rewrite fmap_cons. cbn [foldr]. rewrite IH. apply sort_insert_fmap.
Qed.

Lemma sort_insert_ext (c c' : A → A → Js.number) x s :
  (∀ y, y ∈ s → Js.is_positive (c x y) = Js.is_positive (c' x y)) →
  Js.sort_insert c x s = Js.sort_insert c' x s.
Proof.
  induction s as [|y s IH]; intros H; simpl; [done|].
  rewrite <-(H y) by left.
  destruct (Js.is_positive (c x y)); [|done].
  f_equal. apply IH. intros z Hz. apply H. by right.
Qed.

Lemma array_sort_ext (c c' : A → A → Js.number) l :
  (∀ x y, x ∈ l → y ∈ l → Js.is_positive (c x y) = Js.is_positive (c' x y)) →
  Js.array_sort c l = Js.array_sort c' l.
Proof.
  induction l as [|x l IH]; intros H; simpl; [done|].
  rewrite IH by (intros y z ? ?; apply H; by right).
  apply sort_insert_ext. intros y Hy. apply H; [left|right].
  by apply array_sort_elem_of in Hy.
Qed.
End SortExt.

Lemma rank_loop_idx q q' :
  Forall2 (λ a b, idx a = idx b) q q' → rank_loop q = rank_loop q'.
Proof.
  intros Hq. unfold rank_loop, rank_upto. rewrite <-(Forall2_length _ _ _ Hq).
  generalize (∅ : gmap nat nat). generalize (seq 0 (length q)).
  intros rs. induction rs as [|r rs IH]; intros tiers; simpl; [done|].
  rewrite IH. f_equal. unfold rank_step.
  rewrite <-(Forall2_length _ _ _ Hq).
  destruct (q !! r) as [a|] eqn:Ha.
  - destruct (Forall2_lookup_l _ _ _ _ _ Hq Ha) as (b & -> & Hidx).
    by rewrite Hidx.
  - apply lookup_ge_None in Ha. rewrite (Forall2_length _ _ _ Hq) in Ha.
    apply lookup_ge_None in Ha. by rewrite Ha.
Qed.

Lemma array_sort_as_fmap getValue factions :
  Js.array_sort byValueDesc (filter qualifies (make_items getValue factions))
  = (λ k, Item k.1 (getValue k.2) (count k.2))
    <$> Js.array_sort (λ a b, Js.sub (getValue b.2) (getValue a.2))
          (filter (λ k, (3 ≤ count k.2)%Z) (imap pair factions)).
Proof.
  assert (make_items getValue factions
          = (λ k, Item k.1 (getValue k.2) (count k.2)) <$> imap pair factions)
    as ->.
  { unfold make_items. by rewrite fmap_imap. }
  rewrite <-(array_sort_fmap
               (λ k : nat * faction, Item k.1 (getValue k.2) (count k.2))
               byValueDesc).
  f_equal. generalize (imap pair factions). intros l.
  induction l as [|k l IH]; [done|].
  rewrite fmap_cons, !filter_cons, IH.
  destruct (decide (qualifies _)) as [Hq|Hq], (decide (3 ≤ count k.2)%Z) as [Hc|Hc];
    unfold qualifies in Hq; simpl in Hq; try done; lia.
Qed.

(** X3.  The tiers depend on finite values only through the order they put
    on the qualifying factions: two value functions, finite on the factions
    with [count >= 3], that compare every two of these the same way give the
    same tiers, whatever values they give to the other factions and
    whatever the engine. *)
Theorem assignTiers_order_only (engine : Js.Engine)
    (factions : list faction) (getValue getValue' : faction → Js.number) :
  finite_qualifying getValue factions →
  finite_qualifying getValue' factions →
  (∀ f1 f2, f1 ∈ factions → f2 ∈ factions →
            (3 ≤ count f1)%Z → (3 ≤ count f2)%Z →
            Js.lt (getValue f1) (getValue f2)
            ↔ Js.lt (getValue' f1) (getValue' f2)) →
  assignTiers engine factions getValue' = assignTiers engine factions getValue.
Proof.
  intros Hfin Hfin' Horder. unfold assignTiers. cbn zeta.
  rewrite !make_items_length. f_equal.
  rewrite !ranking_array_sort by done.
  rewrite !array_sort_as_fmap. apply rank_loop_idx.
  rewrite (array_sort_ext (λ a b, Js.sub (getValue' b.2) (getValue' a.2))
                          (λ a b, Js.sub (getValue b.2) (getValue a.2))).
  - apply Forall2_fmap, Forall_Forall2_diag, Forall_forall. done.
  - intros x y [Hx Hxin]%list_elem_of_filter [Hy Hyin]%list_elem_of_filter.
    assert (∀ k, k ∈ imap pair factions → k.2 ∈ factions) as Hin.
    { intros k [i Hk]%list_elem_of_lookup. rewrite list_lookup_imap in Hk.
      destruct (factions !! i) as [f|] eqn:Hf; simplify_eq/=.
      by eapply list_elem_of_lookup_2. }
    pose proof (Horder x.2 y.2 (Hin _ Hxin) (Hin _ Hyin) Hx Hy) as Hxy.
    unfold finite_qualifying in Hfin, Hfin'.
    rewrite Forall_forall in Hfin, Hfin'.
    destruct (Hfin x.2 (Hin _ Hxin) Hx) as [qx Hqx].
    destruct (Hfin y.2 (Hin _ Hyin) Hy) as [qy Hqy].
    destruct (Hfin' x.2 (Hin _ Hxin) Hx) as [qx' Hqx'].
    destruct (Hfin' y.2 (Hin _ Hyin) Hy) as [qy' Hqy'].
    rewrite Hqx, Hqy, Hqx', Hqy' in *. simpl in Hxy.
    apply Bool.eq_iff_eq_true. rewrite !is_positive_lt. simpl.
    split; intros; lra.
Qed.

Lemma assignTiers_order_only_witness :
  let factions := [Faction "Orks" (Js.Finite (45 # 100)) 10;
                   Faction "Necrons" Js.NaN 2;
                   Faction "Aeldari" (Js.Finite (50 # 100)) 10] in
  let percent f :=
    match win_rate f with
    | Js.Finite q => Js.Finite (q * 100)
    | v => if (count f <? 3)%Z then Js.Finite 0 else v
    end in
  assignTiers Js.reversing_engine factions percent
  = assignTiers Js.reversing_engine factions win_rate.
Proof.
  intros factions percent. apply assignTiers_order_only.
  - finite_values.
  - finite_values.
  - intros f1 f2 H1 H2 Hc1 Hc2. unfold percent.
    apply Z.ltb_ge in Hc1, Hc2. rewrite Hc1, Hc2.
    destruct (win_rate f1), (win_rate f2); simpl; split; intros;
      try done; lra.
Defined.

(** X4.  As soon as two factions qualify, the first of the ranking holds S
    and the last holds D: both ends of the scale are always in use. *)
Theorem assignTiers_two_qualifying (engine : Js.Engine)
    (factions : list faction) (getValue : faction → Js.number) :
  let qualifying := ranking engine (make_items getValue factions) in
  2 ≤ length qualifying →
  ∃ first last,
    qualifying !! 0 = Some first ∧
    qualifying !! (length qualifying - 1) = Some last ∧
    idx first ≠ idx last ∧
    assignTiers engine factions getValue !! idx first = Some 0 ∧
    assignTiers engine factions getValue !! idx last = Some 4.
Proof.
  intros qualifying Hn.
  destruct (lookup_lt_is_Some_2 qualifying 0) as [first Hfirst]; [lia|].
  destruct (lookup_lt_is_Some_2 qualifying (length qualifying - 1))
    as [last Hlast]; [lia|].
  exists first, last. split_and!; [done|done|..].
  - intros Heq.
    pose proof (ranking_idx_inj engine getValue factions _ _ _ _
                  Hfirst Hlast Heq).
    lia.
  - rewrite (assignTiers_ranked _ _ _ _ _ Hfirst). by rewrite tier_first.
  - rewrite (assignTiers_ranked _ _ _ _ _ Hlast). fold qualifying.
    rewrite tier_last; [done|lia].
Qed.

Lemma assignTiers_two_qualifying_witness :
  let factions := [Faction "Orks" (Js.Finite (45 # 100)) 10;
                   Faction "Necrons" Js.NaN 10] in
  ∃ first last,
    ranking Js.insertion_engine (make_items win_rate factions) !! 0
    = Some first ∧
    ranking Js.insertion_engine (make_items win_rate factions) !! (2 - 1)
    = Some last ∧
    idx first ≠ idx last ∧
    assignTiers Js.insertion_engine factions win_rate !! idx first = Some 0 ∧
    assignTiers Js.insertion_engine factions win_rate !! idx last = Some 4.
Proof.
  intros factions.
  apply (assignTiers_two_qualifying Js.insertion_engine factions win_rate).
  vm_compute. lia.
Defined.

(** ** The label and the colour of a tier *)

Lemma assignTiers_tier_le engine factions getValue i t :
  assignTiers engine factions getValue !! i = Some t → t ≤ 4.
Proof.
  intros Ht.
  destruct (assignTiers_lookup_cases engine factions getValue i)
    as [(r & it & _ & _ & _ & Hr)|[_ Hfill]].
  - rewrite Hr in Ht. simplify_eq. apply tier_of_pct_le.
  - rewrite Hfill in Ht. case_decide; simplify_eq. lia.
Qed.

Lemma eqv_of_nat_inj (i : Js.number) (k k' : nat) :
  Js.eqv i (Js.of_nat k) → Js.eqv i (Js.of_nat k') → k = k'.
Proof.
  destruct i as [| |q|]; simpl; try done. intros Hk Hk'.
  rewrite Hk in Hk'. unfold Qeq in Hk'. simpl in Hk'. lia.
Qed.

(** X5.  On the tiers that [assignTiers] gives, [tierLabel] and [tierColor]
    read their tables without falling back, and both tell the tiers apart:
    two factions show the same label, or the same colour, exactly when they
    hold the same tier. *)
Theorem tier_display_faithful (engine : Js.Engine)
    (factions : list faction) (getValue : faction → Js.number)
    (i j ti tj : nat) :
  assignTiers engine factions getValue !! i = Some ti →
  assignTiers engine factions getValue !! j = Some tj →
  TIER_LABELS !! ti = Some (tierLabel (Js.of_nat ti)) ∧
  Palette.TIER_COLORS !! ti = Some (Palette.tierColor (Js.of_nat ti)) ∧
  (tierLabel (Js.of_nat ti) = tierLabel (Js.of_nat tj) ↔ ti = tj) ∧
  (Palette.tierColor (Js.of_nat ti) = Palette.tierColor (Js.of_nat tj)
   ↔ ti = tj).
Proof.
  intros Hi%assignTiers_tier_le Hj%assignTiers_tier_le.
  unfold tierLabel, Palette.tierColor. rewrite !array_get_of_nat.
  do 5 (destruct ti as [|ti]; [
    do 5 (destruct tj as [|tj]; [split_and!; try done; split; done|]); lia|]).
  lia.
Qed.

Lemma tier_display_faithful_witness :
  let factions := [Faction "Orks" (Js.Finite (45 # 100)) 10;
                   Faction "Necrons" (Js.Finite (55 # 100)) 10] in
  tierLabel (Js.of_nat 4) = tierLabel (Js.of_nat 0) ↔ 4 = 0.
Proof.
  intros factions.
  apply (tier_display_faithful Js.insertion_engine factions win_rate 0 1 4 0);
    reflexivity.
Defined.

(** X6.  A number that is no index of the tables is shown as D: [tierLabel]
    gives "D" and [tierColor] gives the colour of D on every number but 0,
    1, 2 and 3, so also on the indices from 4 up, on negative numbers, on
    fractions, on the infinities and on NaN. *)
Theorem tier_display_fallback (tierIdx : Js.number) :
  (tierLabel tierIdx = "D"%string
   ↔ ∀ k, Js.eqv tierIdx (Js.of_nat k) → 4 ≤ k) ∧
  (Palette.tierColor tierIdx = "#5a5c78"%string
   ↔ ∀ k, Js.eqv tierIdx (Js.of_nat k) → 4 ≤ k).
Proof.
  unfold tierLabel, Palette.tierColor. split.
  - destruct (array_get_cases TIER_LABELS tierIdx)
      as [(k & Hk & ->)|[Hnone ->]].
    + split.
      * intros HD k' Hk'. rewrite <-(eqv_of_nat_inj _ _ _ Hk Hk').
        do 4 (destruct k as [|k]; [discriminate|]). lia.
      * intros Hge. specialize (Hge k Hk).
        do 4 (destruct k as [|k]; [lia|]). by destruct k.
    + split; [|done]. intros _ k Hk. by destruct (Hnone k).
  - destruct (array_get_cases Palette.TIER_COLORS tierIdx)
      as [(k & Hk & ->)|[Hnone ->]].
    + split.
      * intros HD k' Hk'. rewrite <-(eqv_of_nat_inj _ _ _ Hk Hk').
        do 4 (destruct k as [|k]; [discriminate|]). lia.
      * intros Hge. specialize (Hge k Hk).
        do 4 (destruct k as [|k]; [lia|]). by destruct k.
    + split; [|done]. intros _ k Hk. by destruct (Hnone k).
Qed.

Lemma tier_display_fallback_witness :
  tierLabel (Js.Finite (-1)) = "D"%string ∧
  Palette.tierColor Js.NaN = "#5a5c78"%string.
Proof.
  split.
  - apply (proj1 (tier_display_fallback (Js.Finite (-1)))).
    intros k Hk. unfold Js.eqv, Js.of_nat, Qeq in Hk. simpl in Hk. lia.
  - apply (proj2 (tier_display_fallback Js.NaN)). intros k [].
Defined.

(** ** The parameters of the API client *)



(** X8.  [getEvents] asks for page 1 when the page is missing or 0, and for
    20 events a page when the page size is missing or 0. *)
Theorem getEvents_page_defaults {Json : Type}
    (encodeURIComponent : string → string)
    (global_fetch fetchFn : option (string → Settled (Response Json)))
    (page pageSize : option N) (epoch from to : option string)
    (hasResults : bool) :
  let api := createApi encodeURIComponent global_fetch fetchFn in
  (page = None ∨ page = Some 0%N →
   getEvents api page pageSize epoch from to hasResults
   = getEvents api (Some 1%N) pageSize epoch from to hasResults) ∧
  (pageSize = None ∨ pageSize = Some 0%N →
   getEvents api page pageSize epoch from to hasResults
   = getEvents api page (Some 20%N) epoch from to hasResults).
Proof.
  intros api. split; intros [->| ->]; reflexivity.
Qed.

Lemma getEvents_page_defaults_witness :
  let api := createApi (Json := string) (λ s, s) None
               (Some (λ url, Fulfilled {| ok := true; status := 200;
                                          json := Fulfilled url |})) in
  getEvents api (Some 0%N) None None None None false
  = Fulfilled "/api/events?page=1&page_size=20"%string.
Proof.
  intros api. subst api.
  etrans; [|reflexivity].
  apply (proj1 (getEvents_page_defaults (λ s, s) None
           (Some (λ url, Fulfilled {| ok := true; status := 200;
                                      json := Fulfilled url |}))
           (Some 0%N) None None None None false)
           ltac:(right; reflexivity)).
Defined.

(** X9.  A fetch that rejects makes every method reject with the same
    error; the response is never read. *)
Theorem createApi_fetch_rejected {Json : Type}
    (encodeURIComponent : string → string)
    (global_fetch : option (string → Settled (Response Json)))
    (fetch : string → Settled (Response Json)) (e : JsError) :
  (∀ url, fetch url = Rejected e) →
  let api := createApi encodeURIComponent global_fetch (Some fetch) in
  (∀ page pageSize epoch from to hasResults,
     getEvents api page pageSize epoch from to hasResults = Rejected e) ∧
  (∀ id epoch, getEvent api id epoch = Rejected e) ∧
  (∀ epoch from to, getFactionStats api epoch from to = Rejected e) ∧
  getEpochs api = Rejected e.
Proof.
  intros Hfetch api. subst api.
  split_and!; intros;
    cbn [createApi getEvents getEvent getFactionStats getEpochs];
    by rewrite Hfetch.
Qed.

Lemma createApi_fetch_rejected_witness :
  getEpochs (createApi (Json := string) (λ s, s) None
               (Some (λ _, Rejected (Error "Failed to fetch"))))
  = Rejected (Error "Failed to fetch").
Proof.
  apply (createApi_fetch_rejected (λ s, s) None
           (λ _, Rejected (Error "Failed to fetch")) (Error "Failed to fetch")).
  reflexivity.
Defined.



(** At page 0 the two clients part: the older one asks for page 0. *)
Example legacy_client_page_zero :
  let fetch := λ url, Fulfilled {| ok := true; status := 200;
                                   json := Fulfilled url |} in
  LegacyApi.getEvents (Json := string) fetch (Some 0%N) None
  = Fulfilled "/api/events?page=0&page_size=20"%string.
Proof. reflexivity. Qed.

(** ** The faction chart *)

Lemma chartData_cases (factions : option (list Chart.FactionRow)) :
  match Chart.chartData factions with
  | None => factions = None ∨ factions = Some []
  | Some d =>
      ∃ l, factions = Some l ∧ 1 ≤ length l ∧
        Chart.labels d = take 15 (Chart.faction <$> l) ∧
        Chart.data d = take 15 (Chart.meta_share <$> l) ∧
        Chart.backgroundColor d = take 15 (Chart.barColor <$> l)
  end.
Proof.
  destruct factions as [l|]; simpl; [|by left].
  destruct (Nat.eqb_spec (length l) 0) as [Hnil|Hne].
  { right. by destruct l. }
  exists l. simpl. rewrite !fmap_take. split_and!; (done || lia).
Qed.






(** X12.  The height of the chart is between 300 and 490 pixels, and it
    leaves 30 pixels for every bar that is drawn and 40 beside. *)
Theorem chart_height_fits (factions : option (list Chart.FactionRow)) :
  (300 ≤ Chart.height factions ≤ 490)%Z ∧
  ∀ d, Chart.chartData factions = Some d →
       (30 * Z.of_nat (length (Chart.labels d)) + 40 ≤ Chart.height factions)%Z.
Proof.
  split.
  - unfold Chart.height. destruct factions; lia.
  - intros d Hd. pose proof (chartData_cases factions) as H.
    rewrite Hd in H. destruct H as (l & -> & _ & -> & _).
    rewrite length_take, length_fmap. unfold Chart.height. lia.
Qed.

Lemma chart_height_fits_witness :
  let rows := replicate 20 {| Chart.faction := "Orks"; Chart.tier := "B";
                              Chart.meta_share := 5 # 100 |} in
  ∃ d, Chart.chartData (Some rows) = Some d ∧
       (30 * Z.of_nat (length (Chart.labels d)) + 40 ≤ 490)%Z.
Proof.
  intros rows. eexists. split; [reflexivity|].
  apply (proj2 (chart_height_fits (Some rows))). reflexivity.
Defined.

(** ** The event views *)





Lemma pretty_N_char_digit x :
  48 ≤ Ascii.nat_of_ascii (pretty_N_char x) ≤ 57.
Proof. unfold pretty_N_char. repeat case_match; vm_compute; lia. Qed.

Lemma pretty_N_go_digits x s :
  Events.digits s → Events.digits (pretty_N_go x s).
Proof.
  revert s. induction (N.lt_wf_0 x) as [x _ IH]; intros s Hs.
  assert (x = 0 ∨ 0 < x)%N as [->|?] by lia.
  - by rewrite pretty_N_go_0.
  - rewrite pretty_N_go_step by done. apply IH.
    { by apply N.div_lt. }
    split; [apply pretty_N_char_digit|done].
Qed.

Lemma pretty_N_digits (x : N) : Events.digits (pretty x).
Proof.
  unfold pretty, pretty_N. case_decide.
  - split; [vm_compute; lia|done].
  - by apply pretty_N_go_digits.
Qed.

Lemma digits_dash_split a a' b b' :
  Events.digits a → Events.digits a' →
  a +:+ "-" +:+ b = a' +:+ "-" +:+ b' → a = a' ∧ b = b'.
Proof.
  revert a'. induction a as [|c a IH]; intros [|c' a'] Ha Ha' Heq.
  - by simplify_eq/=.
  - destruct Ha' as [Hc' _]. injection Heq as <- _. vm_compute in Hc'. lia.
  - destruct Ha as [Hc _]. injection Heq as -> _. vm_compute in Hc. lia.
  - destruct Ha as [_ Ha], Ha' as [_ Ha']. injection Heq as -> Heq.
    destruct (IH a' Ha Ha' Heq) as [-> ->]. done.
Qed.

(** X14.  The record cell tells the records apart: two placements show the
    same text exactly when both have no record or both have the same wins,
    losses and draws; in particular no record is shown as the dash that
    stands for a missing one. *)
Theorem recordCell_inj (r1 r2 : option Aggregator.GameRecord) :
  Events.recordCell r1 = Events.recordCell r2 → r1 = r2.
Proof.
  assert (∀ g, Events.recordCell (Some g) ≠ Events.recordCell None) as Hdash.
  { intros g Heq. unfold Events.recordCell in Heq.
    pose proof (pretty_N_digits (Aggregator.wins g)) as Hd.
    destruct (pretty (Aggregator.wins g)) as [|c s]; [discriminate Heq|].
    destruct Hd as [Hc _]. injection Heq as -> _. vm_compute in Hc. lia. }
  destruct r1 as [g1|], r2 as [g2|]; intros Heq; [|by destruct (Hdash g1)| |done].
  2: { symmetry in Heq. by destruct (Hdash g2). }
  unfold Events.recordCell in Heq.
  apply digits_dash_split in Heq as [Hw Heq]; [|apply pretty_N_digits..].
  apply digits_dash_split in Heq as [Hl Hd]; [|apply pretty_N_digits..].
  apply (inj pretty) in Hw, Hl, Hd.
  destruct g1, g2; simpl in *; by subst.
Qed.

Lemma recordCell_inj_witness :
  Some {| Aggregator.wins := 5; Aggregator.losses := 1; Aggregator.draws := 0 |}
  = Some {| Aggregator.wins := 5; Aggregator.losses := 1; Aggregator.draws := 0 |}.
Proof. apply recordCell_inj. reflexivity. Defined.

(** ** The state of the application *)

Section AppFacts.
Context {FactionRow EpochRow EventRow : Type}.
Implicit Types s : @App.State FactionRow EpochRow EventRow.

(** X16.  Going back after selecting an event restores the state in which
    the list was shown; in between, a loaded application shows the detail of
    the selected event, provided its identifier is not empty. *)
Theorem select_then_back s (id : string) :
  App.selectedEvent s = None →
  App.handleBack (App.handleSelectEvent id s) = s ∧
  (App.loading s = false → id ≠ EmptyString →
   App.render (App.handleSelectEvent id s)
   = App.Dashboard (App.epochs s) (App.factions s) (App.EventDetailOf id)) ∧
  (App.loading s = false →
   App.render (App.handleBack (App.handleSelectEvent id s))
   = App.Dashboard (App.epochs s) (App.factions s)
       (App.EventListOf (Events.EventList (App.events s) (App.pagination s)))).
Proof.
  intros Hsel. destruct s as [fs es ae evs pg p sel ld]. simpl in Hsel.
  subst sel. split_and!; [done|..].
  - simpl. intros -> Hid. unfold App.render. simpl.
    destruct (String.eqb_spec id EmptyString); done.
  - simpl. by intros ->.
Qed.
End AppFacts.

Lemma select_then_back_witness :
  App.handleBack (App.handleSelectEvent "abc123"
    (App.initial (FactionRow := string) (EpochRow := string)
                 (EventRow := string)))
  = App.initial.
Proof. apply select_then_back. reflexivity. Defined.

(** ** The faction tables *)

(** X17.  The tables agree with each other: every faction that has an
    allegiance has an icon and the other way round, every allegiance is one
    of Imperium, Chaos and Xenos, and every allegiance has an icon colour.
    No name is written twice. *)
Theorem faction_tables_consistent (name : string) :
  (is_Some (Factions.property Factions.FACTION_ALLEGIANCE_MAP name)
   ↔ is_Some (Factions.property Factions.FACTION_ICONS name)) ∧
  (∀ allegiance,
     Factions.property Factions.FACTION_ALLEGIANCE_MAP name = Some allegiance →
     allegiance ∈ ["Imperium"; "Chaos"; "Xenos"]%string ∧
     is_Some (Factions.property Factions.FACTION_ICON_COLORS allegiance)) ∧
  NoDup (Factions.FACTION_ALLEGIANCE_MAP.*1) ∧
  NoDup (Factions.FACTION_ICONS.*1).
Proof.
  assert (dom (list_to_map Factions.FACTION_ALLEGIANCE_MAP : gmap string string)
          = dom (list_to_map Factions.FACTION_ICONS
                   : gmap string Factions.IconInfo)) as Hdom.
  { rewrite !dom_list_to_map_L. apply (bool_decide_unpack _). by vm_compute. }
  assert (Forall (λ entry,
            entry.2 ∈ ["Imperium"; "Chaos"; "Xenos"]%string ∧
            is_Some (Factions.property Factions.FACTION_ICON_COLORS entry.2))
          Factions.FACTION_ALLEGIANCE_MAP) as Hall.
  { apply (bool_decide_unpack _). by vm_compute. }
  split_and!.
  - unfold Factions.property. rewrite <-!elem_of_dom.
    split; intros Hin; [by rewrite <-Hdom|by rewrite Hdom].
  - intros allegiance Hlook. unfold Factions.property in Hlook.
    apply elem_of_list_to_map_2 in Hlook.
    rewrite Forall_forall in Hall. apply (Hall (name, allegiance) Hlook).
  - apply (bool_decide_unpack _). by vm_compute.
  - apply (bool_decide_unpack _). by vm_compute.
Qed.

Lemma faction_tables_consistent_witness :
  "Xenos"%string ∈ ["Imperium"; "Chaos"; "Xenos"]%string ∧
  is_Some (Factions.property Factions.FACTION_ICON_COLORS "Xenos").
Proof.
  apply (proj1 (proj2 (faction_tables_consistent "T'au Empire"))).
  reflexivity.
Defined.

(** ** More on the epoch resolver *)

Lemma governing_event_is_Some d events e :
  e ∈ events → (date e ≤ d)%Z → is_Some (governing_event d events).
Proof.
  intros Hin Hle. destruct (governing_event d events) eqn:Hg; [done|].
  pose proof (proj1 (governing_event_None d events) Hg e Hin). lia.
Qed.

Lemma NoDup_fmap_elem_inj {A B} (f : A → B) (l : list A) x y :
  NoDup (f <$> l) → x ∈ l → y ∈ l → f x = f y → x = y.
Proof.
  intros Hnd [i Hi]%list_elem_of_lookup [j Hj]%list_elem_of_lookup Hf.
  assert (i = j) as ->; [|congruence].
  apply (NoDup_lookup (f <$> l) i j (f x)); [done|..].
  - by rewrite list_lookup_fmap, Hi.
  - by rewrite list_lookup_fmap, Hj, Hf.
Qed.

(** X18.  The order in which the boundary events are listed does not
    matter: a rearranged list gives a governing event of the same date, and
    the same event, so the same epoch, when no two events share a date. *)
Theorem get_epoch_for_date_any_order
    {EpochId : Type} (epoch_id_from_event : SignificantEvent → EpochId)
    (PRE_TRACKING_EPOCH_ID : EpochId)
    (d : NaiveDate) (events events' : list SignificantEvent) :
  events ≡ₚ events' →
  date <$> governing_event d events = date <$> governing_event d events' ∧
  (NoDup (date <$> events) →
   governing_event d events = governing_event d events' ∧
   get_epoch_for_date epoch_id_from_event PRE_TRACKING_EPOCH_ID d events
   = get_epoch_for_date epoch_id_from_event PRE_TRACKING_EPOCH_ID d events').
Proof.
  intros Hperm.
  assert (∀ e e', governing_event d events = Some e →
                  governing_event d events' = Some e' →
                  date e = date e' ∧ e' ∈ events) as Hsame.
  { intros e e' (Hin & Hle & Hmax)%governing_event_Some
               (Hin' & Hle' & Hmax')%governing_event_Some.
    rewrite <-Hperm in Hin'. split; [|done].
    pose proof (Hmax e' Hin' Hle'). rewrite Hperm in Hin.
    pose proof (Hmax' e Hin Hle). lia. }
  assert (governing_event d events = None ↔ governing_event d events' = None)
    as Hnone.
  { rewrite !governing_event_None. by setoid_rewrite Hperm. }
  destruct (governing_event d events) as [e|] eqn:He,
           (governing_event d events') as [e'|] eqn:He'.
  - destruct (Hsame e e' eq_refl eq_refl) as [Hdate Hin']. split.
    + simpl. by rewrite Hdate.
    + intros Hnd. unfold get_epoch_for_date. rewrite He, He'.
      apply governing_event_Some in He as (Hin & _).
      by rewrite (NoDup_fmap_elem_inj date events e e' Hnd Hin Hin' Hdate).
  - discriminate (proj2 Hnone eq_refl).
  - discriminate (proj1 Hnone eq_refl).
  - split; [done|]. intros _. unfold get_epoch_for_date. by rewrite He, He'.
Qed.

Lemma get_epoch_for_date_any_order_witness :
  let e1 := {| id := "e1"; event_type := balance_update;
               date := ymd 2025 6 15; title := "Balance Dataslate June 2025" |} in
  let e2 := {| id := "e2"; event_type := edition_release;
               date := ymd 2025 9 20; title := "Edition release" |} in
  date <$> governing_event (ymd 2025 7 12) [e1; e2]
  = date <$> governing_event (ymd 2025 7 12) [e2; e1].
Proof.
  intros e1 e2.
  apply (get_epoch_for_date_any_order id "pre_tracking"%string
           (ymd 2025 7 12) [e1; e2] [e2; e1]).
  apply Permutation_swap.
Defined.

(** X19.  Between two boundaries nothing changes: two dates with no
    boundary event after the first and up to the second have the same
    governing event, so the same epoch; and boundary events that lie after a
    date do not change what the date resolves to. *)
Theorem governing_event_constant_between
    (events later : list SignificantEvent) (d1 d2 : NaiveDate) :
  (d1 ≤ d2)%Z →
  (∀ e, e ∈ events → ¬ (d1 < date e ≤ d2)%Z) →
  (∀ e, e ∈ later → (d2 < date e)%Z) →
  governing_event d1 events = governing_event d2 events ∧
  governing_event d2 (events ++ later) = governing_event d2 events ∧
  governing_event d2 (later ++ events) = governing_event d2 events.
Proof.
  intros Hle Hgap Hlater. unfold governing_event.
  assert (filter (λ e, (date e ≤ d2)%Z) later = []) as Hnil.
  { induction later as [|e later IH]; [done|].
    rewrite filter_cons. destruct (decide (date e ≤ d2)%Z) as [Hd|_].
    - specialize (Hlater e ltac:(left)). lia.
    - apply IH. intros e' He'. apply Hlater. by right. }
  split_and!.
  - f_equal. clear Hlater Hnil.
    induction events as [|e events IH]; [done|].
    rewrite !filter_cons, IH by (intros e' He'; apply Hgap; by right).
    specialize (Hgap e ltac:(left)).
    destruct (decide (date e ≤ d1)%Z), (decide (date e ≤ d2)%Z); try done; lia.
  - by rewrite filter_app, Hnil, app_nil_r.
  - by rewrite filter_app, Hnil.
Qed.

Lemma governing_event_constant_between_witness :
  let e1 := {| id := "e1"; event_type := balance_update;
               date := ymd 2025 6 15; title := "Balance Dataslate June 2025" |} in
  let e2 := {| id := "e2"; event_type := edition_release;
               date := ymd 2025 9 20; title := "Edition release" |} in
  governing_event (ymd 2025 6 15) [e1] = governing_event (ymd 2025 9 19) [e1] ∧
  governing_event (ymd 2025 9 19) ([e1] ++ [e2])
  = governing_event (ymd 2025 9 19) [e1] ∧
  governing_event (ymd 2025 9 19) ([e2] ++ [e1])
  = governing_event (ymd 2025 9 19) [e1].
Proof.
  intros e1 e2.
  apply (governing_event_constant_between [e1] [e2]
           (ymd 2025 6 15) (ymd 2025 9 19)).
  - vm_compute. discriminate.
  - intros e ->%list_elem_of_singleton. vm_compute. intros [H _]. discriminate H.
  - intros e ->%list_elem_of_singleton. vm_compute. reflexivity.
Defined.

(** X20.  A date on which a boundary event falls belongs to the epoch that
    this event starts: it resolves to an event of that very date, never to
    the synthetic epoch. *)
Theorem governing_event_at_boundary
    (events : list SignificantEvent) (e : SignificantEvent) :
  e ∈ events →
  ∃ e', governing_event (date e) events = Some e' ∧ date e' = date e ∧
        (NoDup (date <$> events) → e' = e).
Proof.
  intros Hin.
  destruct (governing_event_is_Some (date e) events e Hin ltac:(lia))
    as [e' He'].
  exists e'. pose proof He' as (Hin' & Hle & Hmax)%governing_event_Some.
  assert (date e' = date e) as Hdate.
  { pose proof (Hmax e Hin ltac:(lia)). lia. }
  split_and!; [done..|].
  intros Hnd. by apply (NoDup_fmap_elem_inj date events e' e Hnd).
Qed.

Lemma governing_event_at_boundary_witness :
  let e1 := {| id := "e1"; event_type := balance_update;
               date := ymd 2025 6 15; title := "Balance Dataslate June 2025" |} in
  ∃ e', governing_event (ymd 2025 6 15) [e1] = Some e' ∧ date e' = date e1 ∧
        (NoDup (date <$> [e1]) → e' = e1).
Proof.
  intros e1. apply (governing_event_at_boundary [e1] e1). left.
Defined.
